(** * Num2 first-run data directory chooser (src/qt/intro.cpp)

    A shallow embedding of the [Intro] dialog and of its background
    [FreespaceChecker], with the properties of the single-slot request
    channel, of the filesystem probe, of the status display and of
    [Intro::pickDataDirectory].

    Conventions
    - [QString] and [std::string] are [string]; [quint64]/[uint64] values are
      [N] (no operation of this file can leave the 64-bit range: the code
      only divides and compares them).
    - The mutex of [Intro] makes [checkPath] and [getPathToCheck] atomic;
      each is one function on the dialog state.
    - [emit] is modelled by returning the list of emitted signals.
    - boost::filesystem and the Qt services the code calls are interfaces
      (type classes below); the theorems hold for every implementation. *)

From Stdlib Require Import NArith ZArith List String Ascii Bool Lia.
From Stdlib Require Import DecimalString.
From stdpp Require Import base option gmap strings.
Import ListNotations.

Local Open Scope string_scope.
Local Open Scope N_scope.
Local Open Scope list_scope.

(** ** Constants (intro.cpp, lines 11-13) *)

Definition uint64_modulus : N := 2 ^ 64.

(** [static const uint64 GB_BYTES = 1000000000LL;] *)
Definition GB_BYTES : N := 1000000000 mod uint64_modulus.

(** [static const uint64 BLOCK_CHAIN_SIZE = 10LL * GB_BYTES;] *)
Definition BLOCK_CHAIN_SIZE : N := (10 * GB_BYTES) mod uint64_modulus.

(** ** Data model *)

Definition QString := string.

(** [enum Status { ST_OK, ST_ERROR }]; the [reply] signal and [setStatus]
    carry it as an [int]. *)
Definition ST_OK : Z := 0%Z.
Definition ST_ERROR : Z := 1%Z.

(** The arguments of [reply(int status, const QString &message, quint64 available)]. *)
Record Reply := mkReply {
  reply_status : Z;
  reply_message : QString;
  reply_available : N
}.

(** A [QLabel]: its text and its style sheet. *)
Record QLabel := mkLabel {
  text : QString;
  styleSheet : QString
}.

(** The widgets of [Ui::Intro] that the modelled functions touch. *)
Record Ui := mkUi {
  errorMessage : QLabel;
  freeSpace : QLabel;
  okButtonEnabled : bool   (* buttonBox->button(QDialogButtonBox::Ok)->isEnabled() *)
}.

(** The dialog: its widgets and the shared slot ([pathToCheck], [signalled])
    that the mutex protects. *)
Record Intro := mkIntro {
  ui : Ui;
  pathToCheck : QString;
  signalled : bool
}.

(** Signals of [Intro] that the modelled functions emit. *)
Inductive Signal := requestCheck.

(** State of a freshly constructed dialog: [signalled(false)], a null
    [pathToCheck]; [u] is what [setupUi] built. *)
Definition Intro_new (u : Ui) : Intro :=
  {| ui := u; pathToCheck := ""; signalled := false |}.

(** ** The single-slot request channel (intro.cpp, lines 250-270) *)

(** [void Intro::checkPath(const QString &dataDir)] *)
Definition checkPath (dataDir : QString) (i : Intro) : Intro * list Signal :=
  let i1 := {| ui := ui i; pathToCheck := dataDir; signalled := signalled i |} in
  if negb (signalled i1)
  then ({| ui := ui i1; pathToCheck := pathToCheck i1; signalled := true |},
        [requestCheck])
  else (i1, []).

(** [QString Intro::getPathToCheck()]: the value returned and the new state. *)
Definition getPathToCheck (i : Intro) : QString * Intro :=
  let retval := pathToCheck i in
  (retval, {| ui := ui i; pathToCheck := pathToCheck i; signalled := false |}).

(** Successive calls of [checkPath], in order, with the signals they emit. *)
Fixpoint checkPaths (paths : list QString) (i : Intro) : Intro * list Signal :=
  match paths with
  | [] => (i, [])
  | p :: rest =>
      let '(i1, out1) := checkPath p i in
      let '(i2, out2) := checkPaths rest i1 in
      (i2, out1 ++ out2)
  end.

(** [void Intro::on_dataDirectory_textChanged(const QString &dataDirStr)] *)
Definition on_dataDirectory_textChanged (dataDirStr : QString) (i : Intro)
  : Intro * list Signal :=
  let u := {| errorMessage := errorMessage (ui i);
              freeSpace := freeSpace (ui i);
              okButtonEnabled := false |} in
  checkPath dataDirStr
    {| ui := u; pathToCheck := pathToCheck i; signalled := signalled i |}.

(** ** The dialog and its worker thread as a transition system

    [requestCheck] is connected to [FreespaceChecker::check] across threads,
    so each emission posts one call of [check] to the worker's event queue.
    The worker runs one [check] at a time; its first statement reads the slot. *)

Inductive Worker :=
| Idle                      (* waiting in its event loop *)
| Entered                   (* check() entered, slot not yet read *)
| Probing (p : QString).    (* slot read, probing the filesystem for p *)

Record System := mkSystem {
  dialog : Intro;
  posted : nat;             (* calls of check() waiting in the worker's queue *)
  worker : Worker
}.

Inductive Event :=
| TextChanged (p : QString) (* UI thread: the path was edited *)
| WorkerDequeue             (* worker: takes a posted call, enters check() *)
| WorkerRead                (* worker: intro->getPathToCheck() *)
| WorkerReply.              (* worker: emits reply, returns to its event loop *)

Definition exec (e : Event) (s : System) : System :=
  match e with
  | TextChanged p =>
      let '(i, out) := on_dataDirectory_textChanged p (dialog s) in
      {| dialog := i; posted := (posted s + List.length out)%nat; worker := worker s |}
  | WorkerDequeue =>
      match worker s, posted s with
      | Idle, S n => {| dialog := dialog s; posted := n; worker := Entered |}
      | _, _ => s
      end
  | WorkerRead =>
      match worker s with
      | Entered =>
          let '(p, i) := getPathToCheck (dialog s) in
          {| dialog := i; posted := posted s; worker := Probing p |}
      | _ => s
      end
  | WorkerReply =>
      match worker s with
      | Probing _ => {| dialog := dialog s; posted := posted s; worker := Idle |}
      | _ => s
      end
  end.

Definition run (evs : list Event) (s : System) : System :=
  fold_left (fun st e => exec e st) evs s.

Definition System_new (u : Ui) : System :=
  {| dialog := Intro_new u; posted := 0%nat; worker := Idle |}.

(** Requests dispatched to the worker whose [check] has not yet read the slot. *)
Definition in_flight (s : System) : nat :=
  (posted s + match worker s with Entered => 1 | _ => 0 end)%nat.

(** One request is in flight exactly when the flag is set. *)
Definition channel_invariant (s : System) : Prop :=
  in_flight s = if signalled (dialog s) then 1%nat else 0%nat.

(** ** Services of Qt *)

(** [QObject::tr]: no translation is loaded, the source text is returned. *)
Definition tr (sourceText : QString) : QString := sourceText.

(** [QString::arg(a)] for a text whose only place marker is [%1], as every
    format string of intro.cpp is: each [%1] is replaced by [a]. *)
Fixpoint arg (fmt a : QString) : QString :=
  match fmt with
  | EmptyString => EmptyString
  | String "%" (String "1" rest) => a +:+ arg rest a
  | String c rest => String c (arg rest a)
  end.

(** [QString::number(qulonglong)]: decimal digits. *)
Definition QString_number (n : N) : QString :=
  NilZero.string_of_uint (N.to_uint n).

(** What the platform decides. *)
Class Platform := {
  (** [QDir::toNativeSeparators] *)
  toNativeSeparators : QString -> QString
}.

(** ** boost::filesystem *)

Definition path := string.

(** [QString::toStdString] followed by [fs::path(...)]: the pathname. *)
Definition toStdString (s : QString) : path := s.

(** [enum file_type] *)
Inductive file_type :=
| status_error | file_not_found | regular_file | directory_file
| symlink_file | block_file | character_file | fifo_file | socket_file
| type_unknown.

(** [struct space_info]: three [uintmax_t], of the width of [uint64]. *)
Record space_info := mkSpace {
  capacity : N;
  free : N;
  available : N
}.

(** [fs::filesystem_error], with the system error code it carries. *)
Inductive filesystem_error := FilesystemError (code : Z).

(** A call of a throwing boost::filesystem function. *)
Inductive fs_result (A : Type) :=
| Done (a : A)
| Throws (e : filesystem_error).
Arguments Done {A} a.
Arguments Throws {A} e.

(** The operations of boost::filesystem that intro.cpp uses, over a type
    [FS] of filesystem states. The path decomposition is the library's (it
    differs between POSIX and Windows). A call that throws changes nothing. *)
Class Filesystem (FS : Type) := {
  has_parent_path : path -> bool;
  parent_path : path -> path;
  (** [fs::status(p)], the throwing overload that [exists] and
      [is_directory] are defined from *)
  status : FS -> path -> fs_result file_type;
  (** [fs::space(p)] *)
  space : FS -> path -> fs_result space_info;
  (** [fs::create_directory(p)]: whether a directory was created, and the
      new state *)
  create_directory : FS -> path -> fs_result (bool * FS)
}.

(** How a call of a function of intro.cpp ends. *)
Inductive outcome (A : Type) :=
| Returned (a : A)
| Uncaught (e : filesystem_error)   (* a filesystem_error leaves the function *)
| OutOfFuel.                        (* still looping when the fuel ran out *)
Arguments Returned {A} a.
Arguments Uncaught {A} e.
Arguments OutOfFuel {A}.

Section Probe.
Context `{Platform} {FS : Type} `{Filesystem FS}.

(** [fs::exists(p)]: [exists(status(p))] *)
Definition fs_exists (fs : FS) (p : path) : fs_result bool :=
  match status fs p with
  | Done t =>
      Done (match t with status_error | file_not_found => false | _ => true end)
  | Throws e => Throws e
  end.

(** [fs::is_directory(p)]: [is_directory(status(p))] *)
Definition fs_is_directory (fs : FS) (p : path) : fs_result bool :=
  match status fs p with
  | Done t => Done (match t with directory_file => true | _ => false end)
  | Throws e => Throws e
  end.

(** The loop of [check] (lines 62-67):
    [while(parentDir.has_parent_path() && !fs::exists(parentDir))
         parentDir = parentDir.parent_path();]
    It stands outside the [try] block. [fuel] bounds the iterations. *)
Fixpoint first_existing_parent (fuel : nat) (fs : FS) (parentDir : path)
  : outcome path :=
  match fuel with
  | O => OutOfFuel
  | S fuel' =>
      if has_parent_path parentDir then
        match fs_exists fs parentDir with
        | Throws e => Uncaught e
        | Done true => Returned parentDir
        | Done false => first_existing_parent fuel' fs (parent_path parentDir)
        end
      else Returned parentDir
  end.

(** The [try { ... } catch(fs::filesystem_error &e) { ... }] of [check]
    (lines 69-88) and the arguments of [emit reply(...)]. The variables
    start as [freeBytesAvailable = 0], [replyStatus = ST_OK],
    [replyMessage = tr("A new data directory will be created.")]. *)
Definition probe (fs : FS) (dataDir parentDir : path) : Reply :=
  let replyMessage := tr "A new data directory will be created." in
  let caught (freeBytesAvailable : N) :=
    mkReply ST_ERROR (tr "Cannot create data directory here.") freeBytesAvailable in
  match space fs parentDir with
  | Throws _ => caught 0
  | Done si =>
      let freeBytesAvailable := available si in
      match fs_exists fs dataDir with
      | Throws _ => caught freeBytesAvailable
      | Done false => mkReply ST_OK replyMessage freeBytesAvailable
      | Done true =>
          match fs_is_directory fs dataDir with
          | Throws _ => caught freeBytesAvailable
          | Done true =>
              let separator := toNativeSeparators "/" in
              mkReply ST_OK
                (arg (tr "Directory already exists. Add <code>%1name</code> if you intend to create a new directory here.") separator)
                freeBytesAvailable
          | Done false =>
              mkReply ST_ERROR (tr "Path already exists, and is not a directory.")
                freeBytesAvailable
          end
      end
  end.

(** [void FreespaceChecker::check()]: the dialog after the slot was read,
    and the reply emitted, if [check] gets that far. *)
Definition check (fuel : nat) (fs : FS) (intro : Intro) : Intro * outcome Reply :=
  let '(dataDirStr, intro') := getPathToCheck intro in
  let dataDir := toStdString dataDirStr in
  match first_existing_parent fuel fs dataDir with
  | Returned parentDir => (intro', Returned (probe fs dataDir parentDir))
  | Uncaught e => (intro', Uncaught e)
  | OutOfFuel => (intro', OutOfFuel)
  end.

End Probe.

(** ** Status display (intro.cpp, lines 178-208) *)

Definition warning_style : QString := "QLabel { color: #800000 }".

(** [void Intro::setStatus(int status, const QString &message, quint64 bytesAvailable)],
    on the widgets. *)
Definition setStatus_ui (status : Z) (message : QString) (bytesAvailable : N)
  (u : Ui) : Ui :=
  (* switch(status) *)
  let errorMessage1 :=
    if Z.eqb status ST_OK then
      {| text := message; styleSheet := "" |}
    else if Z.eqb status ST_ERROR then
      {| text := tr "Error" +:+ ": " +:+ message; styleSheet := warning_style |}
    else errorMessage u in
  (* Indicate number of bytes available *)
  let freeSpace1 :=
    if Z.eqb status ST_ERROR then
      {| text := ""; styleSheet := styleSheet (freeSpace u) |}
    else
      let freeString :=
        QString_number (bytesAvailable / GB_BYTES) +:+ tr "GB of free space available" in
      if bytesAvailable <? BLOCK_CHAIN_SIZE then
        let freeString :=
          freeString +:+ " " +:+
          arg (tr "(of %1GB needed)") (QString_number (BLOCK_CHAIN_SIZE / GB_BYTES)) in
        {| text := freeString +:+ "."; styleSheet := warning_style |}
      else
        {| text := freeString +:+ "."; styleSheet := "" |} in
  (* Don't allow confirm in ERROR state *)
  {| errorMessage := errorMessage1;
     freeSpace := freeSpace1;
     okButtonEnabled := negb (Z.eqb status ST_ERROR) |}.

Definition setStatus (status : Z) (message : QString) (bytesAvailable : N)
  (i : Intro) : Intro :=
  {| ui := setStatus_ui status message bytesAvailable (ui i);
     pathToCheck := pathToCheck i;
     signalled := signalled i |}.

(** The slot [setStatus] runs with the arguments of a [reply] signal. *)
Definition deliver (r : Reply) (i : Intro) : Intro :=
  setStatus (reply_status r) (reply_message r) (reply_available r) i.

(** ** Arguments and settings *)

(** Modelled from the spec: util.cpp, with [GetArg], [GetBoolArg], [SoftSetArg]
    and [GetDefaultDataDir], is not under src/. The spec gives an accessor
    that tells whether an option was supplied, with a default, and a write
    under a key that happens only if the key is not already set. The
    arguments are a map from option names to the values supplied. *)
Definition GetArg (mapArgs : gmap string string) (strArg strDefault : string)
  : string :=
  match mapArgs !! strArg with
  | Some v => v
  | None => strDefault
  end.

(** Modelled from the spec: util.cpp is not under src/. A flag that was
    not supplied reads as the default; how a supplied value reads as a
    boolean is left to [boolValue]. *)
Definition GetBoolArg (boolValue : string -> bool)
  (mapArgs : gmap string string) (strArg : string) (fDefault : bool) : bool :=
  match mapArgs !! strArg with
  | Some v => boolValue v
  | None => fDefault
  end.

(** Modelled from the spec: util.cpp is not under src/. The value is
    written under the key only if the key is not already set; the result
    tells whether it was written. *)
Definition SoftSetArg (mapArgs : gmap string string) (strArg strValue : string)
  : bool * gmap string string :=
  match mapArgs !! strArg with
  | Some _ => (false, mapArgs)
  | None => (true, <[strArg := strValue]> mapArgs)
  end.

(** [QSettings::value(key, defaultValue).toString()] *)
Definition settings_value (settings : gmap string QString) (key : string)
  (defaultValue : QString) : QString :=
  match settings !! key with
  | Some v => v
  | None => defaultValue
  end.

(** [std::string::empty()] *)
Definition empty_string (s : string) : bool :=
  match s with
  | EmptyString => true
  | String _ _ => false
  end.

(** ** Choosing the data directory (intro.cpp, lines 137-176) *)

(** What [pickDataDirectory] reads and writes outside the dialog. *)
Record World (FS : Type) := mkWorld {
  mapArgs : gmap string string;       (* the arguments of util.h *)
  settings : gmap string QString;     (* the QSettings store *)
  disk : FS
}.
Arguments mkWorld {FS}.
Arguments mapArgs {FS}.
Arguments settings {FS}.
Arguments disk {FS}.

(** One run of [intro.exec()], as the user ends it: the dialog code
    returned and the text of the line edit at that time. *)
Record DialogRun := mkDialogRun {
  exec_code : Z;
  dataDirectory_text : QString
}.

(** What [pickDataDirectory] does that can be observed, in order. *)
Inductive Action :=
| ReadSetting (key : string)
| ShowIntro
| CreateDirectory (p : path) (created : bool)
| CriticalBox (message : QString)
| WriteSetting (key : string) (value : QString)
| SoftSet (strArg strValue : string).

(** How [pickDataDirectory] ends. *)
Inductive Ending :=
| Finished                          (* returns to its caller *)
| Exited (code : Z)                 (* exit(code) *)
| Raised (e : filesystem_error)     (* a filesystem_error leaves the function *)
| WaitingForUser.                   (* the dialog is open, the script is used up *)

Record Run (FS : Type) := mkRun {
  world : World FS;
  actions : list Action;
  ending : Ending
}.
Arguments mkRun {FS}.
Arguments world {FS}.
Arguments actions {FS}.
Arguments ending {FS}.

(** How the [while(true)] loop of [pickDataDirectory] ends. *)
Inductive Choice (FS : Type) :=
| Chosen (dataDir : QString) (fs : FS)
| Cancelled
| Pending.
Arguments Chosen {FS}.
Arguments Cancelled {FS}.
Arguments Pending {FS}.

Definition dquote : QString := String (ascii_of_nat 34) EmptyString.

(** The text of the [QMessageBox::critical] shown when the directory cannot
    be created. *)
Definition critical_message (dataDir : QString) : QString :=
  arg (tr ("Error: Specified data directory " +:+ dquote +:+ "%1"
           +:+ dquote +:+ " can not be created.")) dataDir.

Section PickDataDirectory.
Context {FS : Type} `{Filesystem FS}.
Variable GetDefaultDataDir : path.
Variable boolValue : string -> bool.

(** [QString Intro::getDefaultDataDirectory()] *)
Definition getDefaultDataDirectory : QString := GetDefaultDataDir.

(** The [while(true)] loop (lines 155-171); [script] holds the runs of the
    dialog still to come. *)
Fixpoint choose (script : list DialogRun) (fs : FS) : list Action * Choice FS :=
  match script with
  | [] => ([ShowIntro], Pending)
  | r :: script' =>
      if Z.eqb (exec_code r) 0 then
        (* Cancel clicked *)
        ([ShowIntro], Cancelled)
      else
        let dataDir := dataDirectory_text r in
        match create_directory fs (toStdString dataDir) with
        | Done (created, fs') =>
            ([ShowIntro; CreateDirectory (toStdString dataDir) created],
             Chosen dataDir fs')
        | Throws _ =>
            let message := critical_message dataDir in
            let '(acts, c) := choose script' fs in
            (ShowIntro :: CriticalBox message :: acts, c)
        end
  end.

(** [void Intro::pickDataDirectory()]. [QSettings settings;] is constructed
    before the test of [-datadir]; no value is read from it or written to it
    until [settings.value]. [intro.getDataDirectory()] is the text of the line
    edit when the dialog closes. *)
Definition pickDataDirectory (script : list DialogRun) (w : World FS) : Run FS :=
  if negb (empty_string (GetArg (mapArgs w) "-datadir" "")) then
    mkRun w [] Finished
  else
    (* 1) Default data directory for operating system *)
    let dataDir := getDefaultDataDirectory in
    (* 2) Allow QSettings to override default dir *)
    let dataDir := settings_value (settings w) "strDataDir" dataDir in
    let acts0 := [ReadSetting "strDataDir"] in
    match fs_exists (disk w) (toStdString dataDir) with
    | Throws e => mkRun w acts0 (Raised e)
    | Done found =>
        if negb found || GetBoolArg boolValue (mapArgs w) "-choosedatadir" false
        then
          match choose script (disk w) with
          | (acts, Pending) => mkRun w (acts0 ++ acts) WaitingForUser
          | (acts, Cancelled) => mkRun w (acts0 ++ acts) (Exited 0)
          | (acts, Chosen dataDir fs') =>
              let settings' := <["strDataDir" := dataDir]> (settings w) in
              let mapArgs' := snd (SoftSetArg (mapArgs w) "-datadir" (toStdString dataDir)) in
              mkRun (mkWorld mapArgs' settings' fs')
                (acts0 ++ acts ++
                 [WriteSetting "strDataDir" dataDir;
                  SoftSet "-datadir" (toStdString dataDir)])
                Finished
          end
        else
          let mapArgs' := snd (SoftSetArg (mapArgs w) "-datadir" (toStdString dataDir)) in
          mkRun (mkWorld mapArgs' (settings w) (disk w))
            (acts0 ++ [SoftSet "-datadir" (toStdString dataDir)])
            Finished
    end.

End PickDataDirectory.

(** ** Specification-side notions *)

Section Ancestors.
Context {FS : Type} `{Filesystem FS}.

(** Whether a path is found to exist: its status can be read and says so. *)
Definition found_existing (fs : FS) (p : path) : bool :=
  match fs_exists fs p with
  | Done found => found
  | Throws _ => false
  end.

(** The nearest existing ancestor, in the words of the specification:
    climbing from [p] through paths that are not found to exist ends at [a],
    the first path that exists or that has no parent. A path whose status
    cannot be read is not found to exist, and the climb goes on above it. *)
Inductive nearest_existing_ancestor (fs : FS) : path -> path -> Prop :=
| nearest_no_parent p :
    has_parent_path p = false ->
    nearest_existing_ancestor fs p p
| nearest_exists p :
    has_parent_path p = true ->
    found_existing fs p = true ->
    nearest_existing_ancestor fs p p
| nearest_climb p a :
    has_parent_path p = true ->
    found_existing fs p = false ->
    nearest_existing_ancestor fs (parent_path p) a ->
    nearest_existing_ancestor fs p a.

(** The runs of the dialog in which a directory was entered and accepted
    but could not be created. *)
Definition attempts_fail (fs : FS) (script : list DialogRun) : Prop :=
  Forall (fun r => exec_code r <> 0%Z /\
                   exists e, create_directory fs (toStdString (dataDirectory_text r)) = Throws e)
         script.

End Ancestors.

(** Actions that change what is outside the dialog. *)
Definition persists (a : Action) : bool :=
  match a with
  | CreateDirectory _ _ | WriteSetting _ _ | SoftSet _ _ => true
  | ReadSetting _ | ShowIntro | CriticalBox _ => false
  end.

(** ** A POSIX-style filesystem, for the examples *)

(** Index of the last ["/"] of a pathname. *)
Fixpoint last_separator (s : string) : option nat :=
  match s with
  | EmptyString => None
  | String c rest =>
      match last_separator rest with
      | Some k => Some (S k)
      | None => if Ascii.eqb c "/" then Some O else None
      end
  end.

Definition posix_parent_path (p : path) : path :=
  match last_separator p with
  | None => ""
  | Some O => if Nat.eqb (String.length p) 1 then "" else "/"
  | Some k => substring 0 k p
  end.

(** [has_parent_path()] is [!parent_path().empty()]. *)
Definition posix_has_parent_path (p : path) : bool :=
  negb (empty_string (posix_parent_path p)).

(** A small disk: the type of each existing path, the paths whose status
    cannot be read (no search permission on a directory above them), and the
    free space of the one volume. *)
Record Disk := mkDisk {
  nodes : list (path * file_type);
  unreadable : list path;
  free_bytes : N
}.

Definition EACCES : Z := 13%Z.
Definition ENOENT : Z := 2%Z.
Definition EEXIST : Z := 17%Z.

Fixpoint node_type (l : list (path * file_type)) (p : path) : file_type :=
  match l with
  | [] => file_not_found
  | (q, t) :: l' => if String.eqb q p then t else node_type l' p
  end.

Definition disk_status (d : Disk) (p : path) : fs_result file_type :=
  if existsb (String.eqb p) (unreadable d)
  then Throws (FilesystemError EACCES)
  else Done (node_type (nodes d) p).

Definition disk_space (d : Disk) (p : path) : fs_result space_info :=
  match disk_status d p with
  | Throws e => Throws e
  | Done file_not_found => Throws (FilesystemError ENOENT)
  | Done _ => Done (mkSpace (100 * GB_BYTES) (free_bytes d) (free_bytes d))
  end.

Definition disk_create_directory (d : Disk) (p : path) : fs_result (bool * Disk) :=
  match disk_status d p with
  | Throws e => Throws e
  | Done directory_file => Done (false, d)
  | Done file_not_found =>
      match disk_status d (posix_parent_path p) with
      | Done directory_file =>
          Done (true, mkDisk ((p, directory_file) :: nodes d) (unreadable d) (free_bytes d))
      | Done _ => Throws (FilesystemError ENOENT)
      | Throws e => Throws e
      end
  | Done _ => Throws (FilesystemError EEXIST)
  end.

#[local] Instance posix_disk : Filesystem Disk := {
  has_parent_path := posix_has_parent_path;
  parent_path := posix_parent_path;
  status := disk_status;
  space := disk_space;
  create_directory := disk_create_directory
}.

#[local] Instance unix : Platform := {
  toNativeSeparators := fun s => s
}.

(** The disk of the scenarios: [/existing/dir] is a directory,
    [/existing/file.txt] a regular file, [/nonexistent] does not exist,
    nothing below [/locked] can be examined, and 5,000,000,000 bytes are free. *)
Definition scenario_disk : Disk :=
  {| nodes := [("/", directory_file);
               ("/existing", directory_file);
               ("/existing/dir", directory_file);
               ("/existing/file.txt", regular_file);
               ("/locked", directory_file)];
     unreadable := ["/locked/data"];
     free_bytes := 5000000000 |}.

Definition blank_ui : Ui :=
  {| errorMessage := mkLabel "" "";
     freeSpace := mkLabel "" "";
     okButtonEnabled := false |}.

(** The dialog with [p] in the slot and a check signalled. *)
Definition asking (p : QString) : Intro :=
  {| ui := blank_ui; pathToCheck := p; signalled := true |}.

(** The worlds of the examples: nothing stored in the settings, the disk of
    the scenarios, and the arguments given. *)
Definition scenario_world (args : gmap string string) : World Disk :=
  {| mapArgs := args; settings := ∅; disk := scenario_disk |}.

Definition accept (dataDir : QString) : DialogRun :=
  {| exec_code := 1; dataDirectory_text := dataDir |}.

Definition cancel : DialogRun :=
  {| exec_code := 0; dataDirectory_text := "" |}.

(** ** The other widgets of the dialog (intro.cpp, lines 112-135 and 217-233) *)

(** A [QLineEdit]: its text and whether it is enabled. *)
Record QLineEdit := mkLineEdit {
  lineText : QString;
  lineEnabled : bool
}.

(** Modelled from the spec: forms/intro.ui, from which ui_intro.h is
    generated, is not under src/. The spec has two options, "use default" and
    "custom", of which [setChecked(true)] marks one selected. *)
Inductive DirOption := NoneSelected | DefaultSelected | CustomSelected.

(** The widgets of [Ui::Intro] that the path handlers touch. *)
Record Form := mkForm {
  dataDirectory : QLineEdit;
  dirOption : DirOption;          (* dataDirDefault / dataDirCustom *)
  ellipsisButtonEnabled : bool
}.

(** The whole dialog: these widgets beside the state of [Intro]. *)
Record Chooser := mkChooser {
  form : Form;
  base : Intro
}.

(** [ui->dataDirectory->setText(t)]. Modelled from the spec for the
    connection, which ui_intro.h (not under src/) makes by name: every change
    of the path runs [on_dataDirectory_textChanged]. [QLineEdit] emits
    [textChanged] only when the text differs from the one it holds. *)
Definition dataDirectory_setText (t : QString) (c : Chooser)
  : Chooser * list Signal :=
  if String.eqb t (lineText (dataDirectory (form c))) then (c, [])
  else
    let f := {| dataDirectory :=
                  {| lineText := t;
                     lineEnabled := lineEnabled (dataDirectory (form c)) |};
                dirOption := dirOption (form c);
                ellipsisButtonEnabled := ellipsisButtonEnabled (form c) |} in
    let '(i, out) := on_dataDirectory_textChanged t (base c) in
    ({| form := f; base := i |}, out).

(** [QString Intro::getDataDirectory()] *)
Definition getDataDirectory (c : Chooser) : QString :=
  lineText (dataDirectory (form c)).

(** [void Intro::setDataDirectory(const QString &dataDir)] *)
Definition setDataDirectory (GetDefaultDataDir : path) (dataDir : QString)
  (c : Chooser) : Chooser * list Signal :=
  let '(c1, out) := dataDirectory_setText dataDir c in
  let shown := lineText (dataDirectory (form c1)) in
  if String.eqb dataDir (getDefaultDataDirectory GetDefaultDataDir) then
    ({| form := {| dataDirectory := {| lineText := shown; lineEnabled := false |};
                   dirOption := DefaultSelected;
                   ellipsisButtonEnabled := false |};
        base := base c1 |}, out)
  else
    ({| form := {| dataDirectory := {| lineText := shown; lineEnabled := true |};
                   dirOption := CustomSelected;
                   ellipsisButtonEnabled := true |};
        base := base c1 |}, out).

(** [void Intro::on_ellipsisButton_clicked()]; [dir] is what
    [QFileDialog::getExistingDirectory] returned, empty if it was cancelled. *)
Definition on_ellipsisButton_clicked (dir : QString) (c : Chooser)
  : Chooser * list Signal :=
  if negb (empty_string dir) then dataDirectory_setText dir c else (c, []).

(** [void Intro::on_dataDirDefault_clicked()] *)
Definition on_dataDirDefault_clicked (GetDefaultDataDir : path) (c : Chooser)
  : Chooser * list Signal :=
  setDataDirectory GetDefaultDataDir (getDefaultDataDirectory GetDefaultDataDir) c.

(** [void Intro::on_dataDirCustom_clicked()] *)
Definition on_dataDirCustom_clicked (c : Chooser) : Chooser * list Signal :=
  ({| form := {| dataDirectory :=
                   {| lineText := lineText (dataDirectory (form c));
                      lineEnabled := true |};
                 dirOption := dirOption (form c);
                 ellipsisButtonEnabled := true |};
      base := base c |}, []).

(** What can happen to the path widgets: the user types, picks a directory
    in the file dialog (or cancels it), clicks one of the two options, or the
    program calls [setDataDirectory]. *)
Inductive Gesture :=
| Types (t : QString)
| Picks (dir : QString)
| ClicksDefault
| ClicksCustom
| SetsDirectory (dataDir : QString).

Definition handle (GetDefaultDataDir : path) (g : Gesture) (c : Chooser)
  : Chooser * list Signal :=
  match g with
  | Types t => dataDirectory_setText t c
  | Picks dir => on_ellipsisButton_clicked dir c
  | ClicksDefault => on_dataDirDefault_clicked GetDefaultDataDir c
  | ClicksCustom => on_dataDirCustom_clicked c
  | SetsDirectory dataDir => setDataDirectory GetDefaultDataDir dataDir c
  end.

Fixpoint handle_all (GetDefaultDataDir : path) (gs : list Gesture) (c : Chooser)
  : Chooser * list Signal :=
  match gs with
  | [] => (c, [])
  | g :: gs' =>
      let '(c1, out1) := handle GetDefaultDataDir g c in
      let '(c2, out2) := handle_all GetDefaultDataDir gs' c1 in
      (c2, out1 ++ out2)
  end.

(** One run of [intro.exec()] in full: what is done to the path widgets
    while the dialog is open, and the dialog code with which it closes. *)
Record DialogVisit := mkDialogVisit {
  gestures : list Gesture;
  visit_code : Z
}.

(** The runs of the dialog of [pickDataDirectory] as the script they amount
    to (lines 153-162): the dialog keeps its widgets from one [exec()] to the
    next, and [getDataDirectory()] is read when a run ends. *)
Fixpoint visits_script (GetDefaultDataDir : path) (visits : list DialogVisit)
  (c : Chooser) : list DialogRun :=
  match visits with
  | [] => []
  | v :: rest =>
      let c' := fst (handle_all GetDefaultDataDir (gestures v) c) in
      {| exec_code := visit_code v; dataDirectory_text := getDataDirectory c' |}
        :: visits_script GetDefaultDataDir rest c'
  end.

(** [pickDataDirectory] with its dialog: [Intro intro;] gives the widgets
    [c0] that the constructor built, [intro.setDataDirectory(dataDir)]
    (line 154) presents the resolved directory, and the loop runs the dialog. *)
Definition pickDataDirectory_visits {FS : Type} `{Filesystem FS}
  (GetDefaultDataDir : path) (boolValue : string -> bool) (c0 : Chooser)
  (visits : list DialogVisit) (w : World FS) : Run FS :=
  let dataDir :=
    settings_value (settings w) "strDataDir"
      (getDefaultDataDirectory GetDefaultDataDir) in
  let opened := fst (setDataDirectory GetDefaultDataDir dataDir c0) in
  pickDataDirectory GetDefaultDataDir boolValue
    (visits_script GetDefaultDataDir visits opened) w.

(** The dialog as its constructor leaves it, before any path is set. *)
Definition fresh_chooser : Chooser :=
  mkChooser (mkForm (mkLineEdit "" true) NoneSelected true) (Intro_new blank_ui).

(** The line edit shows the path that is in the slot. *)
Definition slot_shows_text (c : Chooser) : Prop :=
  pathToCheck (base c) = lineText (dataDirectory (form c)).

(** The browse button is enabled exactly when the line edit is. *)
Definition browse_follows_edit (c : Chooser) : Prop :=
  ellipsisButtonEnabled (form c) = lineEnabled (dataDirectory (form c)).

(** ** The dialog, its worker and the replies, as a transition system

    The system of the request channel, with the probe and the way back:
    [reply] is connected to [setStatus] across threads, so every reply is
    queued to the UI thread and shown in order. The filesystem does not
    change during a session. *)

Inductive Thread :=
| Waiting                        (* in its event loop *)
| InCheck                        (* check() entered, slot not yet read *)
| Walking (p : QString)          (* slot read, probing the filesystem for p *)
| Died (e : filesystem_error)    (* a filesystem_error left check() *)
| Spinning.                      (* the loop of check() does not end *)

Record Session := mkSession {
  front : Intro;                 (* the dialog, on the UI thread *)
  queued : nat;                  (* calls of check() posted to the worker *)
  thread : Thread;
  inbox : list Reply             (* replies posted to the UI thread *)
}.

Inductive Step :=
| Edit (p : QString)             (* the path was edited *)
| Take                           (* worker: takes a posted call of check() *)
| ReadSlot                       (* worker: intro->getPathToCheck() *)
| Answer                         (* worker: the rest of check() *)
| Show.                          (* UI thread: setStatus with the oldest reply *)

Section Sessions.
Context `{Platform} {FS : Type} `{Filesystem FS}.

(** [check], after its first statement has read [dataDirStr] from the slot. *)
Definition verdict (fuel : nat) (fs : FS) (dataDirStr : QString) : outcome Reply :=
  let dataDir := toStdString dataDirStr in
  match first_existing_parent fuel fs dataDir with
  | Returned parentDir => Returned (probe fs dataDir parentDir)
  | Uncaught e => Uncaught e
  | OutOfFuel => OutOfFuel
  end.

Definition session_exec (fuel : nat) (fs : FS) (st : Step) (s : Session) : Session :=
  match st with
  | Edit p =>
      let '(i, out) := on_dataDirectory_textChanged p (front s) in
      {| front := i; queued := (queued s + List.length out)%nat;
         thread := thread s; inbox := inbox s |}
  | Take =>
      match thread s, queued s with
      | Waiting, S n =>
          {| front := front s; queued := n; thread := InCheck; inbox := inbox s |}
      | _, _ => s
      end
  | ReadSlot =>
      match thread s with
      | InCheck =>
          let '(p, i) := getPathToCheck (front s) in
          {| front := i; queued := queued s; thread := Walking p; inbox := inbox s |}
      | _ => s
      end
  | Answer =>
      match thread s with
      | Walking p =>
          match verdict fuel fs p with
          | Returned r =>
              {| front := front s; queued := queued s; thread := Waiting;
                 inbox := inbox s ++ [r] |}
          | Uncaught e =>
              {| front := front s; queued := queued s; thread := Died e;
                 inbox := inbox s |}
          | OutOfFuel =>
              {| front := front s; queued := queued s; thread := Spinning;
                 inbox := inbox s |}
          end
      | _ => s
      end
  | Show =>
      match inbox s with
      | r :: rest =>
          {| front := deliver r (front s); queued := queued s;
             thread := thread s; inbox := rest |}
      | [] => s
      end
  end.

Definition session_run (fuel : nat) (fs : FS) (steps : list Step) (s : Session)
  : Session :=
  fold_left (fun acc st => session_exec fuel fs st acc) steps s.

End Sessions.

Definition Session_new (u : Ui) : Session :=
  {| front := Intro_new u; queued := 0%nat; thread := Waiting; inbox := [] |}.

(** The paths entered during the steps, in order. *)
Definition edits (steps : list Step) : list QString :=
  flat_map (fun st => match st with Edit p => [p] | _ => [] end) steps.

(** The widgets are as [setStatus] leaves them for the reply [r]. *)
Definition shows (u : Ui) (r : Reply) : Prop :=
  exists u0 : Ui,
    u = setStatus_ui (reply_status r) (reply_message r) (reply_available r) u0.

Section SessionInvariant.
Context `{Platform} {FS : Type} `{Filesystem FS}.

(** What holds of a session after [steps]: the flag counts the request not
    yet read; the slot holds the latest edit; the worker probes, and the
    replies answer, paths that were entered; and when the flag is clear the
    latest edit is the path being probed, or its reply is the last one
    posted, or it is the one shown. *)
Definition session_invariant (fuel : nat) (fs : FS) (steps : list Step)
  (s : Session) : Prop :=
  (queued s + match thread s with InCheck => 1 | _ => 0 end)%nat
    = (if signalled (front s) then 1 else 0)%nat
  /\ pathToCheck (front s) = List.last (edits steps) ""
  /\ (signalled (front s) = true -> edits steps <> [])
  /\ (forall q, thread s = Walking q -> In q (edits steps))
  /\ Forall (fun r => exists q, In q (edits steps) /\ verdict fuel fs q = Returned r)
       (inbox s)
  /\ (okButtonEnabled (ui (front s)) = true -> edits steps <> [] ->
      exists q r, In q (edits steps) /\ verdict fuel fs q = Returned r
                  /\ reply_status r <> ST_ERROR)
  /\ (signalled (front s) = false -> edits steps <> [] ->
      match thread s with
      | Walking q => q = List.last (edits steps) ""
      | InCheck => False
      | Waiting =>
          exists r, verdict fuel fs (List.last (edits steps) "") = Returned r
                    /\ ((inbox s = [] /\ shows (ui (front s)) r)
                        \/ exists older, inbox s = older ++ [r])
      | Died _ | Spinning => True
      end).

End SessionInvariant.

(** A path decomposition whose parent of every path is the path itself, and
    a filesystem on which nothing exists. *)
Definition fixed_point_paths : Filesystem unit := {|
  has_parent_path := fun _ => true;
  parent_path := fun p => p;
  status := fun _ _ => Done file_not_found;
  space := fun _ _ => Throws (FilesystemError ENOENT);
  create_directory := fun _ _ => Throws (FilesystemError ENOENT)
|}.

(** ** The scenarios, run *)

Example posix_parent_of_newdir :
  posix_parent_path "/nonexistent/newdir" = "/nonexistent" /\
  posix_parent_path "/nonexistent" = "/" /\
  posix_has_parent_path "/" = false /\
  posix_has_parent_path "data" = false.
Proof. repeat split; reflexivity. Qed.

Example scenario_regular_file :
  snd (check 8 scenario_disk (asking "/existing/file.txt")) =
  Returned (mkReply ST_ERROR "Path already exists, and is not a directory." 5000000000).
Proof. reflexivity. Qed.

Example scenario_directory :
  snd (check 8 scenario_disk (asking "/existing/dir")) =
  Returned (mkReply ST_OK
    "Directory already exists. Add <code>/name</code> if you intend to create a new directory here."
    5000000000).
Proof. reflexivity. Qed.

Example scenario_new_directory :
  snd (check 8 scenario_disk (asking "/nonexistent/newdir")) =
  Returned (mkReply ST_OK "A new data directory will be created." 5000000000).
Proof. reflexivity. Qed.

Example scenario_new_directory_shown :
  ui (deliver (mkReply ST_OK "A new data directory will be created." 5000000000)
        (asking "/nonexistent/newdir")) =
  {| errorMessage := mkLabel "A new data directory will be created." "";
     freeSpace := mkLabel "5GB of free space available (of 10GB needed)." warning_style;
     okButtonEnabled := true |}.
Proof. reflexivity. Qed.

(** Three edits before the worker runs: one call of [check] is posted, and
    it reads the last path. *)
Example burst_of_edits :
  run [TextChanged "/h"; TextChanged "/ho"; TextChanged "/home";
       WorkerDequeue; WorkerRead] (System_new blank_ui) =
  {| dialog := {| ui := blank_ui; pathToCheck := "/home"; signalled := false |};
     posted := 0;
     worker := Probing "/home" |}.
Proof. reflexivity. Qed.

(** Once the slot is read the flag is clear: an edit made while the worker
    is still probing posts the next call of [check]. *)
Example edit_while_probing :
  run [TextChanged "/a"; WorkerDequeue; WorkerRead; TextChanged "/b"]
      (System_new blank_ui) =
  {| dialog := {| ui := blank_ui; pathToCheck := "/b"; signalled := true |};
     posted := 1;
     worker := Probing "/a" |}.
Proof. reflexivity. Qed.

(** ** Properties of the request channel *)

Lemma checkPath_path p i : pathToCheck (fst (checkPath p i)) = p.
Proof. unfold checkPath; simpl. destruct (signalled i); reflexivity. Qed.

Lemma checkPath_signalled p i : signalled (fst (checkPath p i)) = true.
Proof. unfold checkPath; simpl. destruct (signalled i) eqn:E; simpl; auto. Qed.

Lemma checkPath_emits p i :
  snd (checkPath p i) = if signalled i then [] else [requestCheck].
Proof. unfold checkPath; simpl. destruct (signalled i); reflexivity. Qed.

Lemma checkPaths_cons p rest i :
  checkPaths (p :: rest) i =
  (fst (checkPaths rest (fst (checkPath p i))),
   snd (checkPath p i) ++ snd (checkPaths rest (fst (checkPath p i)))).
Proof.
  simpl. destruct (checkPath p i) as [i1 o1]. simpl.
  destruct (checkPaths rest i1) as [i2 o2]. reflexivity.
Qed.

(** Once the flag is set, further calls emit nothing and keep it set. *)
Lemma checkPaths_signalled paths : forall i,
  signalled i = true ->
  snd (checkPaths paths i) = [] /\ signalled (fst (checkPaths paths i)) = true.
Proof.
  induction paths as [|p rest IH]; intros i Hs.
  - simpl. auto.
  - rewrite checkPaths_cons. simpl.
    rewrite checkPath_emits, Hs. simpl.
    apply IH. apply checkPath_signalled.
Qed.

(** The last element of a non-empty list does not depend on the default. *)
Lemma last_cons {A} (l : list A) (a d : A) :
  List.last (a :: l) d = List.last l a.
Proof.
  revert a d. induction l as [|b l IH]; intros a d; [reflexivity|].
  change (List.last (a :: b :: l) d) with (List.last (b :: l) d).
  rewrite (IH b d). symmetry. apply IH.
Qed.

(** The slot holds the last path written. *)
Lemma checkPaths_last paths : forall i,
  pathToCheck (fst (checkPaths paths i)) = List.last paths (pathToCheck i).
Proof.
  induction paths as [|p rest IH]; intros i.
  - reflexivity.
  - rewrite checkPaths_cons. cbn [fst].
    rewrite IH, checkPath_path. symmetry. apply last_cons.
Qed.

Lemma checkPaths_from_clear p rest i :
  signalled i = false ->
  snd (checkPaths (p :: rest) i) = [requestCheck].
Proof.
  intros Hs. rewrite checkPaths_cons. cbn [snd].
  rewrite checkPath_emits, Hs.
  destruct (checkPaths_signalled rest (fst (checkPath p i))) as [-> _].
  - apply checkPath_signalled.
  - reflexivity.
Qed.

(** C1. Take the slot as it is when a window of calls can begin: freshly
    constructed, or just read by the worker. For paths P1..PN (N >= 1) passed
    to [checkPath] one after the other with no read in between, [requestCheck]
    is emitted exactly once and the next [getPathToCheck] returns PN. *)
Theorem checkPath_burst_dispatches_once_and_last_wins :
  forall (u : Ui) (before : Intro) (p1 : QString) (rest : list QString),
    (let '(i, out) := checkPaths (p1 :: rest) (Intro_new u) in
     out = [requestCheck] /\ fst (getPathToCheck i) = List.last (p1 :: rest) p1)
    /\
    (let '(i, out) := checkPaths (p1 :: rest) (snd (getPathToCheck before)) in
     out = [requestCheck] /\ fst (getPathToCheck i) = List.last (p1 :: rest) p1).
Proof.
  intros u before p1 rest.
  assert (G : forall i, signalled i = false ->
            let '(i', out) := checkPaths (p1 :: rest) i in
            out = [requestCheck] /\
            fst (getPathToCheck i') = List.last (p1 :: rest) p1).
  { intros i Hs.
    pose proof (checkPaths_from_clear p1 rest i Hs) as Hout.
    pose proof (checkPaths_last (p1 :: rest) i) as Hlast.
    destruct (checkPaths (p1 :: rest) i) as [i' out].
    cbn [fst snd] in *. split; [exact Hout|].
    unfold getPathToCheck. cbn [fst]. rewrite Hlast.
    rewrite !last_cons. reflexivity. }
  split; apply G; reflexivity.
Qed.

(** *** The invariant of the channel *)

Lemma channel_invariant_new u : channel_invariant (System_new u).
Proof. reflexivity. Qed.

Lemma channel_invariant_exec e s :
  channel_invariant s -> channel_invariant (exec e s).
Proof.
  unfold channel_invariant, in_flight.
  destruct s as [[u p sg] n w]. destruct e as [q| | |]; cbn.
  - destruct sg; cbn; intros Hinv; lia.
  - destruct w; cbn; try tauto. destruct n; cbn; try tauto.
    intros Hinv. destruct sg; lia.
  - destruct w; cbn; try tauto. destruct sg; intros Hinv; lia.
  - destruct w; cbn; tauto.
Qed.

Lemma channel_invariant_run evs : forall s,
  channel_invariant s -> channel_invariant (run evs s).
Proof.
  induction evs as [|e evs IH]; intros s Hinv; [exact Hinv|].
  apply IH. apply channel_invariant_exec. exact Hinv.
Qed.

(** C5. In every state the dialog and its worker can reach, at most one
    request is in flight (dispatched and not yet consumed by a read of the
    slot), and one is in flight exactly when [signalled] is set. A path edit
    dispatches only when none is in flight; [checkPath] with the flag set
    only overwrites the slot, with the flag clear it sets the flag and emits
    once; [getPathToCheck] clears the flag and leaves the path. *)
Theorem at_most_one_request_in_flight :
  forall (u : Ui) (evs : list Event),
    let s := run evs (System_new u) in
    (in_flight s <= 1)%nat
    /\ in_flight s = (if signalled (dialog s) then 1%nat else 0%nat)
    /\ (forall p, posted (exec (TextChanged p) s) =
                  (posted s + if Nat.eqb (in_flight s) 0 then 1 else 0)%nat)
    /\ (forall p i, checkPath p i =
          if signalled i
          then (mkIntro (ui i) p true, [])
          else (mkIntro (ui i) p true, [requestCheck]))
    /\ (forall i, getPathToCheck i = (pathToCheck i, mkIntro (ui i) (pathToCheck i) false)).
Proof.
  intros u evs s.
  assert (Hinv : channel_invariant s)
    by (apply channel_invariant_run, channel_invariant_new).
  unfold channel_invariant in Hinv.
  split; [rewrite Hinv; destruct (signalled (dialog s)); lia|].
  split; [exact Hinv|].
  split.
  - intros p. rewrite Hinv. cbn.
    destruct (dialog s) as [u0 p0 sg]. cbn. destruct sg; cbn; lia.
  - split.
    + intros p i. unfold checkPath. cbn. destruct (signalled i); reflexivity.
    + intros i. reflexivity.
Qed.

(** *** The status display *)

Lemma append_assoc (a b c : string) : (a +:+ b) +:+ c = a +:+ (b +:+ c).
Proof.
  induction a as [|x a IH]; [reflexivity|].
  change (String x ((a +:+ b) +:+ c) = String x (a +:+ (b +:+ c))).
  f_equal. exact IH.
Qed.

(** C6. After [setStatus], the OK button is disabled if and only if the
    status is [ST_ERROR]: an error reply disables it, an OK reply enables it,
    whatever the byte count and whatever the button was before. *)
Theorem setStatus_ok_button_disabled_iff_error :
  forall (status : Z) (message : QString) (bytesAvailable : N) (i : Intro),
    (okButtonEnabled (ui (setStatus status message bytesAvailable i)) = false
       <-> status = ST_ERROR)
    /\ okButtonEnabled (ui (setStatus ST_ERROR message bytesAvailable i)) = false
    /\ okButtonEnabled (ui (setStatus ST_OK message bytesAvailable i)) = true.
Proof.
  intros status message bytesAvailable i. cbn.
  split; [|split; reflexivity].
  destruct (Z.eqb_spec status ST_ERROR) as [->|Hne]; cbn.
  - tauto.
  - split; [discriminate|contradiction].
Qed.

(** C7. The unit is 1,000,000,000 bytes and the minimum ten units. An OK
    reply with fewer available bytes than the minimum shows the free space
    with the warning style and the suffix [(of 10GB needed)], and leaves the
    OK button enabled; an OK reply with at least the minimum shows it with
    no style. *)
Theorem setStatus_free_space_warning :
  forall (message : QString) (bytesAvailable : N) (i : Intro),
    let u' := ui (setStatus ST_OK message bytesAvailable i) in
    GB_BYTES = 1000000000
    /\ BLOCK_CHAIN_SIZE = 10 * GB_BYTES
    /\ (bytesAvailable < BLOCK_CHAIN_SIZE ->
          styleSheet (freeSpace u') = warning_style
          /\ text (freeSpace u') =
               QString_number (bytesAvailable / GB_BYTES)
               +:+ "GB of free space available (of 10GB needed)."
          /\ okButtonEnabled u' = true)
    /\ (BLOCK_CHAIN_SIZE <= bytesAvailable ->
          styleSheet (freeSpace u') = ""
          /\ text (freeSpace u') =
               QString_number (bytesAvailable / GB_BYTES)
               +:+ "GB of free space available."
          /\ okButtonEnabled u' = true).
Proof.
  intros message bytesAvailable i u'. subst u'.
  split; [reflexivity|]. split; [reflexivity|].
  unfold setStatus, setStatus_ui.
  change (Z.eqb ST_OK ST_ERROR) with false.
  change (Z.eqb ST_OK ST_OK) with true. cbn [ui freeSpace okButtonEnabled negb].
  split; intros Hb.
  - apply N.ltb_lt in Hb. rewrite Hb. cbn [styleSheet text].
    split; [reflexivity|]. split; [|reflexivity].
    rewrite !append_assoc. reflexivity.
  - apply N.ltb_ge in Hb. rewrite Hb. cbn [styleSheet text].
    split; [reflexivity|]. split; [|reflexivity].
    rewrite !append_assoc. reflexivity.
Qed.

Lemma setStatus_free_space_warning_witness :
  (5000000000 < BLOCK_CHAIN_SIZE /\
   text (freeSpace (ui (setStatus ST_OK "A new data directory will be created."
                          5000000000 (asking "/nonexistent/newdir")))) =
   "5GB of free space available (of 10GB needed).")
  /\
  (BLOCK_CHAIN_SIZE <= 10000000000 /\
   styleSheet (freeSpace (ui (setStatus ST_OK "A new data directory will be created."
                                10000000000 (asking "/nonexistent/newdir")))) = "").
Proof.
  split.
  - split; [reflexivity|].
    apply (setStatus_free_space_warning "A new data directory will be created."
             5000000000 (asking "/nonexistent/newdir")).
    reflexivity.
  - split; [vm_compute; discriminate|].
    apply (setStatus_free_space_warning "A new data directory will be created."
             10000000000 (asking "/nonexistent/newdir")).
    vm_compute; discriminate.
Defined.

(** C10. After [setStatus] with [ST_ERROR] the free-space label is empty,
    whatever it showed before, and the byte count of the reply has no effect
    on the dialog. *)
Theorem setStatus_error_hides_free_space :
  forall (message : QString) (bytesAvailable : N) (i : Intro),
    text (freeSpace (ui (setStatus ST_ERROR message bytesAvailable i))) = ""
    /\ text (errorMessage (ui (setStatus ST_ERROR message bytesAvailable i))) =
         "Error: " +:+ message
    /\ forall bytesAvailable' : N,
         setStatus ST_ERROR message bytesAvailable' i =
         setStatus ST_ERROR message bytesAvailable i.
Proof.
  intros message bytesAvailable i. repeat split; reflexivity.
Qed.

(** *** The filesystem probe *)

Section ProbeFacts.
Context `{Platform} {FS : Type} `{Filesystem FS}.

(** More fuel does not change where the loop stops. *)
Lemma first_existing_parent_more_fuel (fs : FS) fuel : forall p a fuel',
  first_existing_parent fuel fs p = Returned a ->
  (fuel <= fuel')%nat ->
  first_existing_parent fuel' fs p = Returned a.
Proof.
  induction fuel as [|fuel IH]; intros p a fuel' Hrun Hle; [discriminate|].
  destruct fuel' as [|fuel']; [lia|].
  cbn in *. destruct (has_parent_path p); [|exact Hrun].
  destruct (fs_exists fs p) as [[|]|e]; try exact Hrun.
  apply IH; [exact Hrun|lia].
Qed.

(** Where the loop stops is the nearest existing ancestor. *)
Lemma first_existing_parent_sound (fs : FS) fuel : forall p a,
  first_existing_parent fuel fs p = Returned a ->
  nearest_existing_ancestor fs p a.
Proof.
  induction fuel as [|fuel IH]; intros p a Hrun; [discriminate|].
  cbn in Hrun. destruct (has_parent_path p) eqn:Hp.
  - destruct (fs_exists fs p) as [[|]|e] eqn:He.
    + injection Hrun as <-. apply nearest_exists; [exact Hp|].
      unfold found_existing. now rewrite He.
    + apply nearest_climb; [exact Hp| |now apply IH].
      unfold found_existing. now rewrite He.
    + discriminate.
  - injection Hrun as <-. now apply nearest_no_parent.
Qed.

(** A path has one nearest existing ancestor at most. *)
Lemma nearest_existing_ancestor_unique (fs : FS) p a :
  nearest_existing_ancestor fs p a ->
  forall a', nearest_existing_ancestor fs p a' -> a' = a.
Proof.
  induction 1 as [p Hp|p Hp He|p a Hp He _ IH]; intros a' Ha'.
  - inversion Ha'; subst; congruence.
  - inversion Ha'; subst; congruence.
  - inversion Ha'; subst; try congruence. now apply IH.
Qed.

(** With enough fuel the loop stops at the nearest existing ancestor, unless
    an existence test on the way throws. *)
Lemma first_existing_parent_complete (fs : FS) p a :
  nearest_existing_ancestor fs p a ->
  exists fuel0, forall fuel, (fuel0 <= fuel)%nat ->
    first_existing_parent fuel fs p = Returned a
    \/ exists e, first_existing_parent fuel fs p = Uncaught e.
Proof.
  induction 1 as [p Hp|p Hp He|p a Hp He _ [fuel0 IH]].
  - exists 1%nat. intros [|fuel] Hle; [lia|]. left. cbn. now rewrite Hp.
  - exists 1%nat. intros [|fuel] Hle; [lia|]. left. cbn. rewrite Hp.
    unfold found_existing in He. destruct (fs_exists fs p) as [[|]|e];
      [reflexivity|discriminate|discriminate].
  - exists (S fuel0). intros [|fuel] Hle; [lia|]. cbn. rewrite Hp.
    unfold found_existing in He. destruct (fs_exists fs p) as [[|]|e].
    + discriminate.
    + apply IH. lia.
    + right. now exists e.
Qed.

Lemma check_returns (fs : FS) fuel intro a :
  first_existing_parent fuel fs (toStdString (pathToCheck intro)) = Returned a ->
  check fuel fs intro =
  (snd (getPathToCheck intro),
   Returned (probe fs (toStdString (pathToCheck intro)) a)).
Proof. intros Hrun. unfold check. cbn. now rewrite Hrun. Qed.

(** The byte count of every reply is what the space query at the probed
    directory gave, and zero if that query threw. *)
Lemma probe_available (fs : FS) dataDir parentDir :
  reply_available (probe fs dataDir parentDir) =
  match space fs parentDir with
  | Done si => available si
  | Throws _ => 0
  end.
Proof.
  unfold probe. destruct (space fs parentDir) as [si|e]; [|reflexivity].
  destruct (fs_exists fs dataDir) as [[|]|e]; try reflexivity.
  destruct (fs_is_directory fs dataDir) as [[|]|e]; reflexivity.
Qed.

(** A space query that throws is caught and reported. *)
Lemma probe_space_failure (fs : FS) dataDir parentDir e :
  space fs parentDir = Throws e ->
  probe fs dataDir parentDir =
  mkReply ST_ERROR "Cannot create data directory here." 0.
Proof. intros Hs. unfold probe. now rewrite Hs. Qed.

(** An existence test that throws inside the [try] block is caught too; the
    reply keeps the byte count that the space query gave. *)
Lemma probe_status_failure (fs : FS) dataDir parentDir si e :
  space fs parentDir = Done si ->
  status fs dataDir = Throws e ->
  probe fs dataDir parentDir =
  mkReply ST_ERROR "Cannot create data directory here." (available si).
Proof. intros Hs Ht. unfold probe, fs_exists. now rewrite Hs, Ht. Qed.

(** An existence test that throws inside the loop leaves [check]. *)
Lemma check_walk_failure (fs : FS) fuel intro e :
  has_parent_path (toStdString (pathToCheck intro)) = true ->
  status fs (toStdString (pathToCheck intro)) = Throws e ->
  snd (check (S fuel) fs intro) = Uncaught e.
Proof.
  intros Hp Hs. unfold check, fs_exists. cbn.
  unfold toStdString in *. rewrite Hp. unfold fs_exists. now rewrite Hs.
Qed.

End ProbeFacts.

(** C2, amended. When the loop of [check] has stopped at a directory [a]
    and the space query at [a] succeeds, the candidate path is classified in
    three ways: an existing directory gives OK with the hint to append a
    name, an existing path that is not a directory gives ERROR with
    [Path already exists, and is not a directory.], and a path that does not
    exist gives OK with [A new data directory will be created.]; each reply
    carries the free space found at [a]. *)
Theorem check_classifies_when_probe_succeeds :
  forall (P : Platform) (FS : Type) (F : Filesystem FS)
         (fuel : nat) (fs : FS) (intro : Intro) (a : path) (si : space_info),
    let dataDir := toStdString (pathToCheck intro) in
    first_existing_parent fuel fs dataDir = Returned a ->
    space fs a = Done si ->
    (fs_exists fs dataDir = Done true ->
     fs_is_directory fs dataDir = Done true ->
     snd (check fuel fs intro) =
     Returned (mkReply ST_OK
       (arg "Directory already exists. Add <code>%1name</code> if you intend to create a new directory here."
            (toNativeSeparators "/"))
       (available si)))
    /\
    (fs_exists fs dataDir = Done true ->
     fs_is_directory fs dataDir = Done false ->
     snd (check fuel fs intro) =
     Returned (mkReply ST_ERROR "Path already exists, and is not a directory."
                 (available si)))
    /\
    (fs_exists fs dataDir = Done false ->
     snd (check fuel fs intro) =
     Returned (mkReply ST_OK "A new data directory will be created." (available si))).
Proof.
  intros P FS F fuel fs intro a si dataDir Hwalk Hspace.
  subst dataDir. rewrite (check_returns fs fuel intro a Hwalk). cbn [snd].
  unfold probe. rewrite Hspace.
  repeat split.
  - intros -> ->. reflexivity.
  - intros -> ->. reflexivity.
  - intros ->. reflexivity.
Qed.

Lemma check_classifies_when_probe_succeeds_witness :
  snd (check 8 scenario_disk (asking "/existing/dir")) =
    Returned (mkReply ST_OK
      "Directory already exists. Add <code>/name</code> if you intend to create a new directory here."
      5000000000)
  /\ snd (check 8 scenario_disk (asking "/existing/file.txt")) =
    Returned (mkReply ST_ERROR "Path already exists, and is not a directory." 5000000000)
  /\ snd (check 8 scenario_disk (asking "/nonexistent/newdir")) =
    Returned (mkReply ST_OK "A new data directory will be created." 5000000000).
Proof.
  split; [|split].
  - apply (check_classifies_when_probe_succeeds unix Disk posix_disk 8 scenario_disk
             (asking "/existing/dir") "/existing/dir"
             (mkSpace (100 * GB_BYTES) 5000000000 5000000000));
      reflexivity.
  - apply (check_classifies_when_probe_succeeds unix Disk posix_disk 8 scenario_disk
             (asking "/existing/file.txt") "/existing/file.txt"
             (mkSpace (100 * GB_BYTES) 5000000000 5000000000));
      reflexivity.
  - apply (check_classifies_when_probe_succeeds unix Disk posix_disk 8 scenario_disk
             (asking "/nonexistent/newdir") "/"
             (mkSpace (100 * GB_BYTES) 5000000000 5000000000));
      reflexivity.
Defined.

(** C2, as stated, fails: the relative path [data] does not exist, it has
    no parent path, so the space query is made on [data] itself and throws;
    the reply is ERROR with [Cannot create data directory here.], not OK with
    [A new data directory will be created.]. *)
Lemma check_missing_path_without_parent_is_error :
  fs_exists scenario_disk "data" = Done false
  /\ snd (check 8 scenario_disk (asking "data")) =
       Returned (mkReply ST_ERROR "Cannot create data directory here." 0)
  /\ snd (check 8 scenario_disk (asking "data")) <>
       Returned (mkReply ST_OK "A new data directory will be created." 0).
Proof. repeat split; try reflexivity. discriminate. Qed.

(** When [check] replies, the byte count of the reply is the available
    space that the query at the nearest existing ancestor gave. *)
Lemma check_reply_reports_space_of_nearest_existing_ancestor
  `{Platform} {FS : Type} `{Filesystem FS} (fuel : nat) (fs : FS)
  (intro : Intro) (r : Reply) :
  snd (check fuel fs intro) = Returned r ->
  exists a : path,
    nearest_existing_ancestor fs (toStdString (pathToCheck intro)) a
    /\ first_existing_parent fuel fs (toStdString (pathToCheck intro)) = Returned a
    /\ (forall si, space fs a = Done si -> reply_available r = available si).
Proof.
  unfold check. cbn [getPathToCheck].
  destruct (first_existing_parent fuel fs (toStdString (pathToCheck intro)))
    as [a|e|] eqn:Hrun; cbn; try discriminate.
  intros [= <-]. exists a.
  split; [now apply (first_existing_parent_sound fs fuel)|].
  split; [reflexivity|].
  intros si Hs. rewrite probe_available. now rewrite Hs.
Qed.

(** The loop stopping at an existing directory: [/existing/new/sub] and
    [/existing/new] do not exist, [/existing] does. *)
Example check_stops_at_existing_directory :
  nearest_existing_ancestor scenario_disk "/existing/new/sub" "/existing"
  /\ first_existing_parent 8 scenario_disk "/existing/new/sub" = Returned "/existing"
  /\ snd (check 8 scenario_disk (asking "/existing/new/sub")) =
     Returned (mkReply ST_OK "A new data directory will be created." 5000000000).
Proof.
  split; [|split; reflexivity].
  apply nearest_climb; [reflexivity|reflexivity|].
  apply nearest_climb; [reflexivity|reflexivity|].
  apply nearest_exists; reflexivity.
Qed.

(** C3, at the failing input. The nearest existing ancestor of
    [/locked/data] is [/locked]: it exists, and the space query on it gives
    5,000,000,000 available bytes. But the status of [/locked/data] itself
    cannot be read; the first existence test of the loop throws, outside the
    [try] block, and [check] never replies: the free space of [/locked] is
    not reported. *)
Theorem check_reports_nothing_below_a_probeable_ancestor :
  nearest_existing_ancestor scenario_disk "/locked/data" "/locked"
  /\ fs_exists scenario_disk "/locked" = Done true
  /\ space scenario_disk "/locked"
     = Done (mkSpace (100 * GB_BYTES) 5000000000 5000000000)
  /\ (forall fuel : nat,
        snd (check (S fuel) scenario_disk (asking "/locked/data"))
        = Uncaught (FilesystemError EACCES))
  /\ (forall (fuel : nat) (r : Reply),
        snd (check fuel scenario_disk (asking "/locked/data")) <> Returned r).
Proof.
  split.
  { apply nearest_climb; [reflexivity|reflexivity|].
    apply nearest_exists; reflexivity. }
  split; [reflexivity|]. split; [reflexivity|].
  split; [intros fuel; reflexivity|].
  intros [|fuel] r; discriminate.
Qed.

(** C4, at the failing input. The status of [/locked/data] cannot be read.
    The existence test of the loop, which is outside the [try] block,
    throws, and the exception leaves [check]: no reply is emitted. *)
Theorem check_existence_failure_in_loop_is_not_caught :
  has_parent_path "/locked/data" = true
  /\ status scenario_disk "/locked/data" = Throws (FilesystemError EACCES)
  /\ forall fuel : nat,
       snd (check (S fuel) scenario_disk (asking "/locked/data")) =
       Uncaught (FilesystemError EACCES).
Proof. repeat split. Qed.

(** *** Choosing the data directory *)

Section PickFacts.
Context {FS : Type} `{Filesystem FS}.

(** Attempts that fail are each answered by the message box, and the loop
    goes on with the same filesystem. *)
Lemma choose_after_failed_attempts (fs : FS) (failed rest : list DialogRun) :
  attempts_fail fs failed ->
  choose (failed ++ rest) fs =
  (flat_map (fun r => [ShowIntro; CriticalBox (critical_message (dataDirectory_text r))]) failed
     ++ fst (choose rest fs),
   snd (choose rest fs)).
Proof.
  induction 1 as [|r failed [Hcode [e He]] _ IH].
  - cbn. now destruct (choose rest fs).
  - cbn [app choose flat_map].
    destruct (Z.eqb_spec (exec_code r) 0) as [Heq|_]; [contradiction|].
    rewrite He, IH. reflexivity.
Qed.

Lemma failed_attempts_persist_nothing (failed : list DialogRun) :
  Forall (fun a => persists a = false)
    (flat_map (fun r => [ShowIntro; CriticalBox (critical_message (dataDirectory_text r))]) failed).
Proof.
  induction failed as [|r failed IH]; cbn; [constructor|].
  repeat constructor. exact IH.
Qed.

Lemma choose_cancelled (fs : FS) (cancel : DialogRun) (rest : list DialogRun) :
  exec_code cancel = 0%Z ->
  choose (cancel :: rest) fs = ([ShowIntro], Cancelled).
Proof. intros Hc. cbn. now rewrite Hc. Qed.

Lemma choose_accepted (fs fs' : FS) (ok : DialogRun) (rest : list DialogRun) created :
  exec_code ok <> 0%Z ->
  create_directory fs (toStdString (dataDirectory_text ok)) = Done (created, fs') ->
  choose (ok :: rest) fs =
  ([ShowIntro; CreateDirectory (toStdString (dataDirectory_text ok)) created],
   Chosen (dataDirectory_text ok) fs').
Proof.
  intros Hc Hd. cbn.
  destruct (Z.eqb_spec (exec_code ok) 0) as [Heq|_]; [contradiction|].
  now rewrite Hd.
Qed.

End PickFacts.

Lemma SoftSetArg_keeps_supplied (m : gmap string string) k v v0 :
  m !! k = Some v0 -> snd (SoftSetArg m k v) = m.
Proof. intros Hk. unfold SoftSetArg. now rewrite Hk. Qed.

Lemma SoftSetArg_sets_missing (m : gmap string string) k v :
  m !! k = None -> snd (SoftSetArg m k v) !! k = Some v.
Proof.
  intros Hk. unfold SoftSetArg. rewrite Hk. cbn. apply lookup_insert_eq.
Qed.

(** C8. With a non-empty [-datadir], [pickDataDirectory] returns at once:
    no dialog, no setting read or written, the arguments untouched.
    Otherwise every run that returns ends by a soft set of [-datadir] to the
    resolved directory, which stores it if [-datadir] was not supplied and
    changes nothing if it was; and the run does return once the user accepts
    a directory that can be created, after any number of attempts that
    could not. *)
Theorem pickDataDirectory_datadir_option :
  forall (FS : Type) (F : Filesystem FS) (GetDefaultDataDir : path)
         (boolValue : string -> bool) (script : list DialogRun) (w : World FS),
    let r := pickDataDirectory GetDefaultDataDir boolValue script w in
    (empty_string (GetArg (mapArgs w) "-datadir" "") = false ->
       r = mkRun w [] Finished)
    /\
    (empty_string (GetArg (mapArgs w) "-datadir" "") = true ->
     ending r = Finished ->
       exists dataDir : QString,
         List.last (actions r) ShowIntro = SoftSet "-datadir" (toStdString dataDir)
         /\ mapArgs (world r) =
              snd (SoftSetArg (mapArgs w) "-datadir" (toStdString dataDir))
         /\ (mapArgs w !! "-datadir" = None ->
               mapArgs (world r) !! "-datadir" = Some (toStdString dataDir))
         /\ (forall v, mapArgs w !! "-datadir" = Some v ->
               mapArgs (world r) = mapArgs w))
    /\
    (forall (failed rest : list DialogRun) (ok : DialogRun)
            (found created : bool) (fs' : FS),
       script = failed ++ ok :: rest ->
       empty_string (GetArg (mapArgs w) "-datadir" "") = true ->
       fs_exists (disk w)
         (toStdString (settings_value (settings w) "strDataDir" GetDefaultDataDir))
         = Done found ->
       negb found || GetBoolArg boolValue (mapArgs w) "-choosedatadir" false = true ->
       attempts_fail (disk w) failed ->
       exec_code ok <> 0%Z ->
       create_directory (disk w) (toStdString (dataDirectory_text ok))
         = Done (created, fs') ->
       ending r = Finished
       /\ mapArgs (world r) =
            snd (SoftSetArg (mapArgs w) "-datadir" (toStdString (dataDirectory_text ok)))
       /\ settings (world r) = <["strDataDir" := dataDirectory_text ok]> (settings w))
    /\
    (let dataDir := settings_value (settings w) "strDataDir" GetDefaultDataDir in
     empty_string (GetArg (mapArgs w) "-datadir" "") = true ->
     fs_exists (disk w) (toStdString dataDir) = Done true ->
     GetBoolArg boolValue (mapArgs w) "-choosedatadir" false = false ->
       r = mkRun
             (mkWorld (snd (SoftSetArg (mapArgs w) "-datadir" (toStdString dataDir)))
                      (settings w) (disk w))
             [ReadSetting "strDataDir"; SoftSet "-datadir" (toStdString dataDir)]
             Finished).
Proof.
  intros FS F GetDefaultDataDir boolValue script w r. subst r.
  split; [|split; [|split]].
  - intros Hne. unfold pickDataDirectory. now rewrite Hne.
  - intros He. unfold pickDataDirectory. rewrite He. cbn [negb].
    destruct (fs_exists _ _) as [found|e]; [|discriminate].
    destruct (negb found || GetBoolArg _ _ _ _).
    + destruct (choose script (disk w)) as [acts [dataDir fs'| |]];
        try discriminate.
      intros _. exists dataDir. cbn [actions world mapArgs].
      split.
      { change [WriteSetting "strDataDir" dataDir;
                SoftSet "-datadir" (toStdString dataDir)]
          with ([WriteSetting "strDataDir" dataDir]
                  ++ [SoftSet "-datadir" (toStdString dataDir)]).
        rewrite !app_assoc. apply last_last. }
      split; [reflexivity|].
      split; [apply SoftSetArg_sets_missing|].
      intros v Hv. now apply (SoftSetArg_keeps_supplied _ _ _ v).
    + intros _. eexists. cbn [actions world mapArgs].
      split; [reflexivity|].
      split; [reflexivity|].
      split; [apply SoftSetArg_sets_missing|].
      intros v Hv. now apply (SoftSetArg_keeps_supplied _ _ _ v).
  - intros failed rest ok found created fs' -> He Hfound Hshow Hfail Hcode Hcreate.
    unfold pickDataDirectory, getDefaultDataDirectory. rewrite He. cbn [negb].
    rewrite Hfound, Hshow.
    rewrite (choose_after_failed_attempts _ _ _ Hfail).
    rewrite (choose_accepted _ _ _ _ _ Hcode Hcreate). cbn.
    repeat split.
  - intros dataDir He Hfound Hflag. subst dataDir.
    unfold pickDataDirectory, getDefaultDataDirectory. rewrite He. cbn [negb].
    rewrite Hfound, Hflag. reflexivity.
Qed.

Lemma pickDataDirectory_datadir_option_witness :
  pickDataDirectory "/home/user/.num2" (fun _ => true) [cancel]
    (scenario_world {["-datadir" := "/srv/num2"]})
  = mkRun (scenario_world {["-datadir" := "/srv/num2"]}) [] Finished
  /\
  (let r := pickDataDirectory "/home/user/.num2" (fun _ => true)
              [accept "/nonexistent/newdir"; accept "/existing/data"]
              (scenario_world ∅) in
   ending r = Finished
   /\ mapArgs (world r) = snd (SoftSetArg ∅ "-datadir" "/existing/data")
   /\ settings (world r) = <["strDataDir" := "/existing/data"]> ∅).
Proof.
  split.
  - apply (pickDataDirectory_datadir_option Disk posix_disk "/home/user/.num2"
             (fun _ => true) [cancel] (scenario_world {["-datadir" := "/srv/num2"]})).
    reflexivity.
  - apply (proj1 (proj2 (proj2
             (pickDataDirectory_datadir_option Disk posix_disk "/home/user/.num2"
                (fun _ => true)
                [accept "/nonexistent/newdir"; accept "/existing/data"]
                (scenario_world ∅))))
             [accept "/nonexistent/newdir"] [] (accept "/existing/data")
             false true
             (mkDisk (("/existing/data", directory_file) :: nodes scenario_disk)
                     (unreadable scenario_disk) (free_bytes scenario_disk))).
    + reflexivity.
    + reflexivity.
    + reflexivity.
    + reflexivity.
    + constructor; [|constructor].
      split; [discriminate|]. eexists. reflexivity.
    + discriminate.
    + reflexivity.
Defined.

(** C9. When the chooser is shown and the user cancels it, after any number
    of accepted attempts whose directory could not be created, the process
    exits with code 0; the arguments, the settings and the filesystem are as
    they were, and nothing done up to then created a directory, wrote a
    setting or set an argument. *)
Theorem pickDataDirectory_cancel_exits_zero :
  forall (FS : Type) (F : Filesystem FS) (GetDefaultDataDir : path)
         (boolValue : string -> bool) (w : World FS)
         (failed rest : list DialogRun) (cancelled : DialogRun) (found : bool),
    empty_string (GetArg (mapArgs w) "-datadir" "") = true ->
    fs_exists (disk w)
      (toStdString (settings_value (settings w) "strDataDir" GetDefaultDataDir))
      = Done found ->
    negb found || GetBoolArg boolValue (mapArgs w) "-choosedatadir" false = true ->
    attempts_fail (disk w) failed ->
    exec_code cancelled = 0%Z ->
    let r := pickDataDirectory GetDefaultDataDir boolValue
               (failed ++ cancelled :: rest) w in
    ending r = Exited 0
    /\ world r = w
    /\ Forall (fun a => persists a = false) (actions r).
Proof.
  intros FS F GetDefaultDataDir boolValue w failed rest cancelled found
         He Hfound Hshow Hfail Hcode r.
  subst r. unfold pickDataDirectory, getDefaultDataDirectory.
  rewrite He. cbn [negb]. rewrite Hfound, Hshow.
  rewrite (choose_after_failed_attempts _ _ _ Hfail).
  rewrite (choose_cancelled _ _ _ Hcode). cbn [fst snd ending world actions].
  split; [reflexivity|]. split; [reflexivity|].
  apply Forall_app. split; [repeat constructor|].
  apply Forall_app. split; [apply failed_attempts_persist_nothing|].
  repeat constructor.
Qed.

Lemma pickDataDirectory_cancel_exits_zero_witness :
  let r := pickDataDirectory "/home/user/.num2" (fun _ => true)
             [accept "/nonexistent/newdir"; cancel; accept "/existing/data"]
             (scenario_world ∅) in
  ending r = Exited 0
  /\ world r = scenario_world ∅
  /\ Forall (fun a => persists a = false) (actions r).
Proof.
  apply (pickDataDirectory_cancel_exits_zero Disk posix_disk "/home/user/.num2"
           (fun _ => true) (scenario_world ∅)
           [accept "/nonexistent/newdir"] [accept "/existing/data"] cancel false).
  - reflexivity.
  - reflexivity.
  - reflexivity.
  - constructor; [|constructor].
    split; [discriminate|]. eexists. reflexivity.
  - reflexivity.
Defined.

(** ** The whole round: edits, checks and replies *)

Lemma edits_snoc (steps : list Step) (st : Step) :
  edits (steps ++ [st]) =
  edits steps ++ match st with Edit p => [p] | _ => [] end.
Proof.
  unfold edits. rewrite flat_map_app. cbn. now rewrite app_nil_r.
Qed.

Lemma last_in_list {A} (l : list A) (d : A) : l <> [] -> In (List.last l d) l.
Proof.
  induction l as [|a l IH]; [congruence|]. intros _.
  destruct l as [|b l]; [now left|].
  right. apply IH. discriminate.
Qed.

Section SessionFacts.
Context `{Platform} {FS : Type} `{Filesystem FS}.

(** [check] is the read of the slot followed by [verdict]. *)
Lemma check_is_read_then_verdict (fuel : nat) (fs : FS) (i : Intro) :
  check fuel fs i = (snd (getPathToCheck i), verdict fuel fs (fst (getPathToCheck i))).
Proof.
  unfold check, verdict, toStdString. cbn.
  destruct (first_existing_parent fuel fs (pathToCheck i)); reflexivity.
Qed.

Lemma session_run_snoc (fuel : nat) (fs : FS) steps st s :
  session_run fuel fs (steps ++ [st]) s =
  session_exec fuel fs st (session_run fuel fs steps s).
Proof. unfold session_run. now rewrite fold_left_app. Qed.

Lemma session_invariant_new (fuel : nat) (fs : FS) (u : Ui) :
  session_invariant fuel fs [] (Session_new u).
Proof.
  unfold session_invariant. cbn.
  repeat split; try discriminate; try congruence.
  constructor.
Qed.

End SessionFacts.

Section SessionSteps.
Context `{Platform} {FS : Type} `{Filesystem FS}.
Variable fuel : nat.
Variable fs : FS.

Ltac split_invariant :=
  split; [|split; [|split; [|split; [|split; [|split]]]]].

Lemma session_invariant_step (steps : list Step) (st : Step) (s : Session) :
  session_invariant fuel fs steps s ->
  session_invariant fuel fs (steps ++ [st]) (session_exec fuel fs st s).
Proof.
  intros (Hflag & Hslot & Hsig & Hwalk & Hbox & Hok & Hlast).
  destruct s as [[u p sg] n th box]. cbn in *.
  unfold session_invariant. rewrite edits_snoc.
  destruct st as [e| | | |]; cbn [session_exec]; rewrite ?app_nil_r.
  - (* Edit *)
    assert (Hne : edits steps ++ [e] <> []) by (destruct (edits steps); discriminate).
    destruct sg; cbn; split_invariant; try (intros; discriminate); auto.
    + destruct th; cbn in *; lia.
    + now rewrite last_last.
    + intros q Hq. apply in_or_app. left. now apply Hwalk.
    + eapply Forall_impl; [exact Hbox|].
      intros r (q & Hq & Hv). exists q. split; [apply in_or_app; now left|exact Hv].
    + destruct th; cbn in *; lia.
    + now rewrite last_last.
    + intros q Hq. apply in_or_app. left. now apply Hwalk.
    + eapply Forall_impl; [exact Hbox|].
      intros r (q & Hq & Hv). exists q. split; [apply in_or_app; now left|exact Hv].
  - (* Take *)
    destruct th; cbn; try (split_invariant; assumption).
    destruct n as [|n]; cbn; [split_invariant; assumption|].
    assert (sg = true /\ n = 0%nat) as [-> ->] by (destruct sg; lia).
    split_invariant; auto; try discriminate.
  - (* ReadSlot *)
    destruct th; cbn; try (split_invariant; assumption).
    assert (sg = true /\ n = 0%nat) as [-> ->] by (destruct sg; lia).
    split_invariant; auto; try discriminate.
    intros q [= <-]. rewrite Hslot. apply last_in_list. now apply Hsig.
  - (* Answer *)
    destruct th as [| |q| |]; cbn; try (split_invariant; assumption).
    destruct (verdict fuel fs q) as [r|e|] eqn:Hv; cbn.
    + split_invariant; auto; try discriminate.
      * apply Forall_app. split; [exact Hbox|].
        constructor; [|constructor]. exists q. split; [now apply Hwalk|exact Hv].
      * intros Hs Hne. specialize (Hlast Hs Hne). cbn in Hlast. subst q.
        exists r. split; [exact Hv|]. right. now exists box.
    + split_invariant; auto; discriminate.
    + split_invariant; auto; discriminate.
  - (* Show *)
    destruct box as [|r rest]; cbn; [split_invariant; assumption|].
    split_invariant; auto.
    + now apply Forall_inv_tail in Hbox.
    + intros Hen _. apply Forall_inv in Hbox. destruct Hbox as (q & Hq & Hv).
      exists q, r. split; [exact Hq|]. split; [exact Hv|].
      intros Hr. rewrite Hr in Hen. discriminate.
    + intros Hs Hne. specialize (Hlast Hs Hne).
      destruct th; auto.
      destruct Hlast as (r0 & Hv & [[Hnil _]|[older Hold]]); [discriminate|].
      exists r0. split; [exact Hv|].
      destruct older as [|a older]; cbn in Hold.
      * injection Hold as -> ->. left. split; [reflexivity|].
        now exists u.
      * injection Hold as -> ->. right. now exists older.
Qed.

Lemma session_invariant_run (u : Ui) (steps : list Step) :
  session_invariant fuel fs steps (session_run fuel fs steps (Session_new u)).
Proof.
  induction steps as [|st steps IH] using rev_ind.
  - apply session_invariant_new.
  - rewrite session_run_snoc. now apply session_invariant_step.
Qed.

End SessionSteps.

Section ProbeStatus.
Context `{Platform} {FS : Type} `{Filesystem FS}.

(** Every reply of [check] has status [ST_OK] or [ST_ERROR]. *)
Lemma probe_status_range (fs : FS) (dataDir parentDir : path) :
  reply_status (probe fs dataDir parentDir) = ST_OK
  \/ reply_status (probe fs dataDir parentDir) = ST_ERROR.
Proof.
  unfold probe. destruct (space fs parentDir) as [si|e]; [|now right].
  destruct (fs_exists fs dataDir) as [[|]|e]; [|now left|now right].
  destruct (fs_is_directory fs dataDir) as [[|]|e]; [now left|now right|now right].
Qed.

Lemma verdict_status_range (fuel : nat) (fs : FS) (p : QString) (r : Reply) :
  verdict fuel fs p = Returned r ->
  reply_status r = ST_OK \/ reply_status r = ST_ERROR.
Proof.
  unfold verdict. destruct (first_existing_parent fuel fs (toStdString p));
    try discriminate.
  intros [= <-]. apply probe_status_range.
Qed.

End ProbeStatus.

(** X1. When a session has come to rest after at least one edit (no call of
    [check] posted, the worker back in its event loop, no reply waiting), the
    dialog shows the verdict of the path entered last: the widgets are as
    [setStatus] left them for the reply that [check] gives for that path, the
    OK button is enabled exactly if that reply is not an error, and the slot
    holds that path. *)
Theorem session_at_rest_shows_latest_verdict :
  forall (P : Platform) (FS : Type) (F : Filesystem FS)
         (fuel : nat) (fs : FS) (u : Ui) (steps : list Step),
    let s := session_run fuel fs steps (Session_new u) in
    let latest := List.last (edits steps) "" in
    edits steps <> [] ->
    queued s = 0%nat -> thread s = Waiting -> inbox s = [] ->
    exists r : Reply,
      verdict fuel fs latest = Returned r
      /\ snd (check fuel fs (mkIntro u latest true)) = Returned r
      /\ shows (ui (front s)) r
      /\ okButtonEnabled (ui (front s)) = negb (Z.eqb (reply_status r) ST_ERROR)
      /\ pathToCheck (front s) = latest.
Proof.
  intros P FS F fuel fs u steps s latest Hne Hq Hth Hbox.
  destruct (session_invariant_run fuel fs u steps)
    as (Hflag & Hslot & _ & _ & _ & _ & Hlast).
  fold s in Hflag, Hslot, Hlast. rewrite Hth, Hq in Hflag. cbn in Hflag.
  assert (Hs : signalled (front s) = false)
    by (destruct (signalled (front s)); [discriminate|reflexivity]).
  specialize (Hlast Hs Hne). rewrite Hth in Hlast.
  destruct Hlast as (r & Hv & [[_ Hshow]|[older Hold]]).
  - exists r. fold latest in Hv. split; [exact Hv|].
    split; [rewrite check_is_read_then_verdict; exact Hv|].
    split; [exact Hshow|]. split; [|exact Hslot].
    destruct Hshow as [u0 ->]. reflexivity.
  - rewrite Hbox in Hold. destruct older; discriminate.
Qed.

Lemma session_at_rest_shows_latest_verdict_witness :
  let steps := [Edit "/existing/dir"; Take; ReadSlot; Edit "/existing/file.txt";
                Answer; Show; Take; ReadSlot; Answer; Show] in
  let s := session_run 8 scenario_disk steps (Session_new blank_ui) in
  exists r : Reply,
    verdict 8 scenario_disk "/existing/file.txt" = Returned r
    /\ snd (check 8 scenario_disk (mkIntro blank_ui "/existing/file.txt" true))
       = Returned r
    /\ shows (ui (front s)) r
    /\ okButtonEnabled (ui (front s)) = negb (Z.eqb (reply_status r) ST_ERROR)
    /\ pathToCheck (front s) = "/existing/file.txt".
Proof.
  apply (session_at_rest_shows_latest_verdict unix Disk posix_disk 8 scenario_disk
           blank_ui
           [Edit "/existing/dir"; Take; ReadSlot; Edit "/existing/file.txt";
            Answer; Show; Take; ReadSlot; Answer; Show]).
  - discriminate.
  - reflexivity.
  - reflexivity.
  - reflexivity.
Defined.

(** X2. In every state of a session the slot holds the path entered last
    (the null string before any edit), the path the worker is probing is one
    that was entered, and while no newer request is posted it is the path
    entered last. *)
Theorem session_slot_holds_latest_edit :
  forall (P : Platform) (FS : Type) (F : Filesystem FS)
         (fuel : nat) (fs : FS) (u : Ui) (steps : list Step),
    let s := session_run fuel fs steps (Session_new u) in
    pathToCheck (front s) = List.last (edits steps) ""
    /\ (forall q, thread s = Walking q ->
          In q (edits steps)
          /\ (queued s = 0%nat -> q = List.last (edits steps) "")).
Proof.
  intros P FS F fuel fs u steps s.
  destruct (session_invariant_run fuel fs u steps)
    as (Hflag & Hslot & _ & Hwalk & _ & _ & Hlast).
  fold s in Hflag, Hslot, Hwalk, Hlast.
  split; [exact Hslot|]. intros q Hq.
  split; [now apply Hwalk|]. intros Hz.
  rewrite Hq, Hz in Hflag. cbn in Hflag.
  assert (Hs : signalled (front s) = false)
    by (destruct (signalled (front s)); [discriminate|reflexivity]).
  assert (Hne : edits steps <> []).
  { intros Hnil. specialize (Hwalk q Hq). rewrite Hnil in Hwalk. contradiction. }
  specialize (Hlast Hs Hne). now rewrite Hq in Hlast.
Qed.

(** X3. Once a path has been entered, the OK button is enabled only if
    [check] gave an OK reply for some path that was entered; and every reply
    still to be shown is the reply of [check] for a path that was entered. *)
Theorem session_ok_button_needs_ok_reply :
  forall (P : Platform) (FS : Type) (F : Filesystem FS)
         (fuel : nat) (fs : FS) (u : Ui) (steps : list Step),
    let s := session_run fuel fs steps (Session_new u) in
    (edits steps <> [] ->
     okButtonEnabled (ui (front s)) = true ->
       exists q r, In q (edits steps)
                   /\ verdict fuel fs q = Returned r
                   /\ reply_status r = ST_OK)
    /\ Forall (fun r => exists q, In q (edits steps)
                                  /\ verdict fuel fs q = Returned r)
         (inbox s).
Proof.
  intros P FS F fuel fs u steps s.
  destruct (session_invariant_run fuel fs u steps)
    as (_ & _ & _ & _ & Hbox & Hok & _).
  fold s in Hbox, Hok. split; [|exact Hbox].
  intros Hne Hen. destruct (Hok Hen Hne) as (q & r & Hq & Hv & Hr).
  exists q, r. split; [exact Hq|]. split; [exact Hv|].
  destruct (verdict_status_range fuel fs q r Hv) as [Hst|Hst];
    [exact Hst|contradiction].
Qed.

Lemma session_ok_button_needs_ok_reply_witness :
  let steps := [Edit "/existing/dir"; Take; ReadSlot; Answer; Show] in
  exists q r, In q (edits steps)
              /\ verdict 8 scenario_disk q = Returned r
              /\ reply_status r = ST_OK.
Proof.
  apply (proj1 (session_ok_button_needs_ok_reply unix Disk posix_disk 8
                  scenario_disk blank_ui
                  [Edit "/existing/dir"; Take; ReadSlot; Answer; Show])).
  - discriminate.
  - reflexivity.
Defined.

(** A reply can come late: the OK button is enabled by the reply for
    [/existing/dir] while the slot already holds [/existing/file.txt], whose
    own reply, an error, is still to come. *)
Example late_reply_enables_ok_button :
  let s := session_run 8 scenario_disk
             [Edit "/existing/dir"; Take; ReadSlot; Edit "/existing/file.txt";
              Answer; Show] (Session_new blank_ui) in
  pathToCheck (front s) = "/existing/file.txt"
  /\ okButtonEnabled (ui (front s)) = true
  /\ queued s = 1%nat.
Proof. repeat split. Qed.

(** ** More on the probe *)

Lemma last_separator_lt (s : string) (k : nat) :
  last_separator s = Some k -> (k < String.length s)%nat.
Proof.
  revert k. induction s as [|c s IH]; intros k; cbn; [discriminate|].
  destruct (last_separator s) as [j|].
  - intros [= <-]. specialize (IH j eq_refl). lia.
  - destruct (Ascii.eqb c "/"); [|discriminate]. intros [= <-]. lia.
Qed.

Lemma length_substring_le (m : nat) (s : string) :
  (String.length (substring 0 m s) <= m)%nat.
Proof.
  revert s. induction m as [|m IH]; intros s.
  - destruct s; cbn; lia.
  - destruct s as [|c s]; cbn; [lia|]. specialize (IH s). lia.
Qed.

(** On POSIX-style pathnames the parent path is strictly shorter. *)
Lemma posix_parent_path_shorter (q : path) :
  posix_has_parent_path q = true ->
  (String.length (posix_parent_path q) < String.length q)%nat.
Proof.
  unfold posix_has_parent_path, posix_parent_path.
  destruct (last_separator q) as [[|k]|] eqn:E; cbn.
  - apply last_separator_lt in E.
    destruct (Nat.eqb_spec (String.length q) 1); cbn; [discriminate|].
    intros _. lia.
  - apply last_separator_lt in E. intros _.
    pose proof (length_substring_le (S k) q). lia.
  - discriminate.
Qed.

Section LoopFacts.
Context {FS : Type} `{Filesystem FS}.

(** Once the loop has ended, more fuel changes nothing. *)
Lemma first_existing_parent_stable (fs : FS) fuel : forall p fuel',
  first_existing_parent fuel fs p <> OutOfFuel ->
  (fuel <= fuel')%nat ->
  first_existing_parent fuel' fs p = first_existing_parent fuel fs p.
Proof.
  induction fuel as [|fuel IH]; intros p fuel' Hrun Hle; [now contradict Hrun|].
  destruct fuel' as [|fuel']; [lia|].
  cbn in *. destruct (has_parent_path p); [|reflexivity].
  destruct (fs_exists fs p) as [[|]|e]; try reflexivity.
  apply IH; [exact Hrun|lia].
Qed.

Lemma first_existing_parent_enough_fuel (fs : FS) :
  (forall q, has_parent_path q = true ->
             (String.length (parent_path q) < String.length q)%nat) ->
  forall fuel p, (String.length p < fuel)%nat ->
                 first_existing_parent fuel fs p <> OutOfFuel.
Proof.
  intros Hshort. induction fuel as [|fuel IH]; intros p Hlen; [lia|].
  cbn. destruct (has_parent_path p) eqn:Hp; [|discriminate].
  destruct (fs_exists fs p) as [[|]|e]; try discriminate.
  apply IH. specialize (Hshort p Hp). lia.
Qed.

Lemma first_existing_parent_fixed_point (fs : FS) (p : path) :
  has_parent_path p = true ->
  parent_path p = p ->
  fs_exists fs p = Done false ->
  forall fuel, first_existing_parent fuel fs p = OutOfFuel.
Proof.
  intros Hp Hfix Hex. induction fuel as [|fuel IH]; [reflexivity|].
  cbn. now rewrite Hp, Hex, Hfix.
Qed.

End LoopFacts.

(** X4. If the parent path of every path that has one is strictly shorter
    than the path, as with POSIX pathnames, the loop of [check] ends within
    as many rounds as the candidate has characters: with more fuel than that,
    [check] replies or throws, and its result is the same for every such
    fuel. *)
Theorem check_loop_ends_when_parents_shorten :
  forall (P : Platform) (FS : Type) (F : Filesystem FS)
         (fs : FS) (intro : Intro) (fuel : nat),
    (forall q, has_parent_path q = true ->
               (String.length (parent_path q) < String.length q)%nat) ->
    (String.length (toStdString (pathToCheck intro)) < fuel)%nat ->
    snd (check fuel fs intro) <> OutOfFuel
    /\ check fuel fs intro =
       check (S (String.length (toStdString (pathToCheck intro)))) fs intro.
Proof.
  intros P FS F fs intro fuel Hshort Hlen.
  pose proof (first_existing_parent_enough_fuel fs Hshort
                (S (String.length (toStdString (pathToCheck intro))))
                (toStdString (pathToCheck intro)) (Nat.lt_succ_diag_r _)) as Hend.
  pose proof (first_existing_parent_stable fs _ _ fuel Hend Hlen) as Hsame.
  unfold check. cbn [getPathToCheck]. rewrite Hsame.
  split; [|reflexivity].
  destruct (first_existing_parent _ fs (toStdString (pathToCheck intro)));
    cbn; [discriminate|discriminate|now contradict Hend].
Qed.

Lemma check_loop_ends_when_parents_shorten_witness :
  snd (check 20 scenario_disk (asking "/nonexistent/newdir")) <> OutOfFuel
  /\ check 20 scenario_disk (asking "/nonexistent/newdir") =
     check (S (String.length (toStdString "/nonexistent/newdir"))) scenario_disk
       (asking "/nonexistent/newdir").
Proof.
  apply (check_loop_ends_when_parents_shorten unix Disk posix_disk scenario_disk
           (asking "/nonexistent/newdir") 20).
  - exact posix_parent_path_shorter.
  - cbn. lia.
Defined.

(** X5. The loop of [check] has no guard of its own: if the candidate does
    not exist, has a parent path, and that parent path is the candidate
    itself, the loop never ends and [check] never replies. *)
Theorem check_loop_spins_on_a_fixed_point :
  forall (P : Platform) (FS : Type) (F : Filesystem FS)
         (fs : FS) (intro : Intro) (fuel : nat),
    has_parent_path (toStdString (pathToCheck intro)) = true ->
    parent_path (toStdString (pathToCheck intro)) = toStdString (pathToCheck intro) ->
    fs_exists fs (toStdString (pathToCheck intro)) = Done false ->
    snd (check fuel fs intro) = OutOfFuel.
Proof.
  intros P FS F fs intro fuel Hp Hfix Hex.
  unfold check. cbn [getPathToCheck].
  now rewrite (first_existing_parent_fixed_point fs _ Hp Hfix Hex fuel).
Qed.

Lemma check_loop_spins_on_a_fixed_point_witness :
  snd (@check unix unit fixed_point_paths 1000 tt (asking "Z:")) = OutOfFuel.
Proof.
  apply (check_loop_spins_on_a_fixed_point unix unit fixed_point_paths tt
           (asking "Z:") 1000); reflexivity.
Defined.

(** X6. After the reply of a probe has been shown, the OK button is enabled
    exactly when the space query on the probed directory succeeded and the
    candidate either does not exist or is a directory. *)
Theorem ok_button_after_probe :
  forall (P : Platform) (FS : Type) (F : Filesystem FS)
         (fs : FS) (dataDir parentDir : path) (i : Intro),
    okButtonEnabled (ui (deliver (probe fs dataDir parentDir) i)) = true
    <->
    (exists si, space fs parentDir = Done si)
    /\ (fs_exists fs dataDir = Done false \/ fs_is_directory fs dataDir = Done true).
Proof.
  intros P FS F fs dataDir parentDir i.
  unfold deliver, probe, fs_exists, fs_is_directory. cbn.
  destruct (space fs parentDir) as [si|e]; cbn.
  - destruct (status fs dataDir) as [t|e]; cbn.
    + destruct t; cbn; split; intros Hyp;
        try (split; [now exists si|]; (now left) || (now right));
        try reflexivity; try discriminate;
        destruct Hyp as [_ [Hc|Hc]]; discriminate.
    + split; [discriminate|]. intros [_ [Hc|Hc]]; discriminate.
  - split; [discriminate|]. intros [[si Hc] _]. discriminate.
Qed.

(** ** More on the status display *)

Lemma below_minimum_iff_figure (b : N) :
  (b <? BLOCK_CHAIN_SIZE) = (b / GB_BYTES <? 10).
Proof.
  change BLOCK_CHAIN_SIZE with (1000000000 * 10).
  change GB_BYTES with 1000000000.
  destruct (N.ltb_spec b (1000000000 * 10)) as [Hlt|Hge];
    destruct (N.ltb_spec (b / 1000000000) 10) as [Hlt'|Hge']; try reflexivity.
  - apply N.Div0.div_lt_upper_bound in Hlt. lia.
  - apply N.div_le_lower_bound in Hge; lia.
Qed.

(** X7. For an OK reply the free-space label carries the warning style
    exactly when the figure it displays, the available bytes divided by
    [GB_BYTES] and rounded down, is below 10; the text is that figure followed
    by the wording with or without [(of 10GB needed)] accordingly. *)
Theorem free_space_warning_matches_figure :
  forall (message : QString) (bytesAvailable : N) (i : Intro),
    let label := freeSpace (ui (setStatus ST_OK message bytesAvailable i)) in
    (styleSheet label = warning_style <-> bytesAvailable / GB_BYTES < 10)
    /\ text label =
         QString_number (bytesAvailable / GB_BYTES)
         +:+ (if bytesAvailable / GB_BYTES <? 10
              then "GB of free space available (of 10GB needed)."
              else "GB of free space available.").
Proof.
  intros message b i label. subst label.
  unfold setStatus, setStatus_ui.
  change (Z.eqb ST_OK ST_ERROR) with false. cbn [ui freeSpace].
  rewrite below_minimum_iff_figure.
  destruct (N.ltb_spec (b / GB_BYTES) 10) as [Hlt|Hge]; cbn [styleSheet text].
  - split; [tauto|]. rewrite !append_assoc. reflexivity.
  - split; [|rewrite !append_assoc; reflexivity].
    split; [discriminate|]. intros Hlt. lia.
Qed.

(** X8. Showing the same reply twice is showing it once. An OK reply decides
    all three widgets whatever they showed before; an error reply decides the
    message, the empty free-space text and the disabled OK button, and keeps
    only the style sheet of the free-space label. *)
Theorem setStatus_last_reply_decides :
  forall (status : Z) (message : QString) (bytesAvailable : N) (i i' : Intro),
    setStatus status message bytesAvailable
      (setStatus status message bytesAvailable i)
    = setStatus status message bytesAvailable i
    /\ ui (setStatus ST_OK message bytesAvailable i)
       = ui (setStatus ST_OK message bytesAvailable i')
    /\ (let u := ui (setStatus ST_ERROR message bytesAvailable i) in
        let u' := ui (setStatus ST_ERROR message bytesAvailable i') in
        errorMessage u = errorMessage u'
        /\ text (freeSpace u) = text (freeSpace u')
        /\ okButtonEnabled u = okButtonEnabled u'
        /\ styleSheet (freeSpace u) = styleSheet (freeSpace (ui i))).
Proof.
  intros status message b i i'.
  split; [|split; [reflexivity|repeat split]].
  unfold setStatus, setStatus_ui. cbn.
  destruct (Z.eqb status ST_OK); destruct (Z.eqb status ST_ERROR);
    try reflexivity; destruct (b <? BLOCK_CHAIN_SIZE); reflexivity.
Qed.

(** ** More on choosing the data directory *)

Section ChooseFacts.
Context {FS : Type} `{Filesystem FS}.

(** The loop ends with a directory only through an accepted run of the
    dialog whose directory could be created, all runs before it having failed. *)
Lemma choose_chosen (fs : FS) (script : list DialogRun) :
  forall acts dataDir fs',
    choose script fs = (acts, Chosen dataDir fs') ->
    exists before r after created,
      script = before ++ r :: after
      /\ attempts_fail fs before
      /\ exec_code r <> 0%Z
      /\ dataDirectory_text r = dataDir
      /\ create_directory fs (toStdString dataDir) = Done (created, fs').
Proof.
  induction script as [|r script IH]; intros acts dataDir fs'; cbn;
    [discriminate|].
  destruct (Z.eqb_spec (exec_code r) 0) as [Hz|Hnz]; [discriminate|].
  destruct (create_directory fs (toStdString (dataDirectory_text r)))
    as [[created fs1]|e] eqn:Hc.
  - intros [= <- <- <-]. exists [], r, script, created.
    repeat split; [constructor|exact Hnz|exact Hc].
  - destruct (choose script fs) as [acts1 c1] eqn:Hrest.
    intros [= <- ->].
    destruct (IH _ _ _ eq_refl) as (before & r1 & after & created & -> & Hf & Hr & Ht & Hd).
    exists (r :: before), r1, after, created.
    repeat split; try assumption.
    constructor; [|exact Hf]. split; [exact Hnz|now exists e].
Qed.

(** Until a directory is chosen the loop creates nothing and writes nothing. *)
Lemma choose_persists_nothing (fs : FS) (script : list DialogRun) :
  (forall dataDir fs', snd (choose script fs) <> Chosen dataDir fs') ->
  Forall (fun a => persists a = false) (fst (choose script fs)).
Proof.
  induction script as [|r script IH]; cbn; intros Hnot;
    [repeat constructor|].
  destruct (Z.eqb (exec_code r) 0); [repeat constructor|].
  destruct (create_directory fs (toStdString (dataDirectory_text r)))
    as [[created fs1]|e].
  - exfalso. now apply (Hnot (dataDirectory_text r) fs1).
  - destruct (choose script fs) as [acts1 c1]. cbn in *.
    repeat constructor. now apply IH.
Qed.

End ChooseFacts.

Section ChooseShows.
Context {FS : Type} `{Filesystem FS}.

Lemma choose_shows_intro (fs : FS) (script : list DialogRun) :
  In ShowIntro (fst (choose script fs)).
Proof.
  destruct script as [|r script]; cbn; [now left|].
  destruct (Z.eqb (exec_code r) 0); [now left|].
  destruct (create_directory fs (toStdString (dataDirectory_text r)))
    as [[created fs1]|e]; [now left|].
  destruct (choose script fs). now left.
Qed.

End ChooseShows.

(** X9. Unless [pickDataDirectory] returns to its caller it leaves the
    arguments, the settings and the filesystem as they were, and nothing it
    did created a directory, wrote a setting or set an argument. The only
    exit code it ever uses is 0. *)
Theorem pickDataDirectory_changes_nothing_unless_finished :
  forall (FS : Type) (F : Filesystem FS) (GetDefaultDataDir : path)
         (boolValue : string -> bool) (script : list DialogRun) (w : World FS),
    let r := pickDataDirectory GetDefaultDataDir boolValue script w in
    (ending r <> Finished ->
       world r = w /\ Forall (fun a => persists a = false) (actions r))
    /\ (forall code, ending r = Exited code -> code = 0%Z).
Proof.
  intros FS F GetDefaultDataDir boolValue script w r. subst r.
  unfold pickDataDirectory.
  destruct (negb (empty_string (GetArg (mapArgs w) "-datadir" ""))); cbn.
  - split; [intros Hc; now contradict Hc|discriminate].
  - destruct (fs_exists _ _) as [found|e]; cbn.
    + destruct (negb found || GetBoolArg _ _ _ _); cbn.
      * pose proof (choose_persists_nothing (disk w) script) as Hnone.
        destruct (choose script (disk w)) as [acts [dataDir fs'| |]]; cbn in *.
        -- split; [intros Hc; now contradict Hc|discriminate].
        -- split; [|now intros code [= <-]].
           intros _. split; [reflexivity|].
           constructor; [reflexivity|]. apply Hnone. discriminate.
        -- split; [|discriminate].
           intros _. split; [reflexivity|].
           constructor; [reflexivity|]. apply Hnone. discriminate.
      * split; [intros Hc; now contradict Hc|discriminate].
    + split; [|discriminate]. intros _. split; [reflexivity|].
      repeat constructor.
Qed.

(** X10. If [pickDataDirectory] returns after showing the dialog, then the
    script consists of attempts that failed, followed by a run that the user
    accepted and whose directory [create_directory] accepted on the initial
    filesystem; the final filesystem is the one that call left, and
    [strDataDir] is set to that directory. If it returns without showing the
    dialog, the settings and the filesystem are unchanged. *)
Theorem pickDataDirectory_finished_provenance :
  forall (FS : Type) (F : Filesystem FS) (GetDefaultDataDir : path)
         (boolValue : string -> bool) (script : list DialogRun) (w : World FS),
    let r := pickDataDirectory GetDefaultDataDir boolValue script w in
    ending r = Finished ->
    (In ShowIntro (actions r) ->
       exists before ok after created,
         script = before ++ ok :: after
         /\ attempts_fail (disk w) before
         /\ exec_code ok <> 0%Z
         /\ create_directory (disk w) (toStdString (dataDirectory_text ok))
            = Done (created, disk (world r))
         /\ settings (world r)
            = <["strDataDir" := dataDirectory_text ok]> (settings w))
    /\ (~ In ShowIntro (actions r) ->
          settings (world r) = settings w /\ disk (world r) = disk w).
Proof.
  intros FS F GetDefaultDataDir boolValue script w r. subst r.
  unfold pickDataDirectory.
  destruct (negb (empty_string (GetArg (mapArgs w) "-datadir" ""))); cbn.
  - intros _. split; [contradiction|auto].
  - destruct (fs_exists _ _) as [found|e]; cbn; [|discriminate].
    destruct (negb found || GetBoolArg _ _ _ _); cbn.
    + pose proof (choose_chosen (disk w) script) as Hchosen.
      pose proof (choose_shows_intro (disk w) script) as Hshow.
      destruct (choose script (disk w)) as [acts [dataDir fs'| |]]; cbn in *;
        try discriminate.
      intros _. split.
      * intros _.
        destruct (Hchosen _ _ _ eq_refl)
          as (before & ok & after & created & Hs & Hf & Hc & Ht & Hd).
        exists before, ok, after, created. rewrite Ht. auto.
      * intros Hnot. exfalso. apply Hnot. right.
        apply in_or_app. now left.
    + intros _. split; [|auto].
      intros [Hc|[Hc|[]]]; discriminate.
Qed.

Lemma pickDataDirectory_finished_provenance_witness :
  let script := [accept "/nonexistent/newdir"; accept "/existing/data"] in
  let r := pickDataDirectory "/home/user/.num2" (fun _ => true) script
             (scenario_world ∅) in
  exists before ok after created,
    script = before ++ ok :: after
    /\ attempts_fail scenario_disk before
    /\ exec_code ok <> 0%Z
    /\ create_directory scenario_disk (toStdString (dataDirectory_text ok))
       = Done (created, disk (world r))
    /\ settings (world r) = <["strDataDir" := dataDirectory_text ok]> ∅.
Proof.
  apply (pickDataDirectory_finished_provenance Disk posix_disk "/home/user/.num2"
           (fun _ => true)
           [accept "/nonexistent/newdir"; accept "/existing/data"]
           (scenario_world ∅)).
  - reflexivity.
  - right. left. reflexivity.
Defined.

(** X11. After a run that returns, with [-datadir] not supplied, the
    argument [-datadir] holds the directory that the settings now resolve to:
    the stored [strDataDir] if there is one, the default otherwise. (The soft
    set is the one modelled from the spec.) *)
Theorem pickDataDirectory_argument_agrees_with_settings :
  forall (FS : Type) (F : Filesystem FS) (GetDefaultDataDir : path)
         (boolValue : string -> bool) (script : list DialogRun) (w : World FS),
    let r := pickDataDirectory GetDefaultDataDir boolValue script w in
    mapArgs w !! "-datadir" = None ->
    ending r = Finished ->
    mapArgs (world r) !! "-datadir" =
    Some (toStdString
            (settings_value (settings (world r)) "strDataDir"
               (getDefaultDataDirectory GetDefaultDataDir))).
Proof.
  intros FS F GetDefaultDataDir boolValue script w r Hnone. subst r.
  unfold pickDataDirectory, GetArg. rewrite Hnone. cbn.
  destruct (fs_exists _ _) as [found|e]; cbn; [|discriminate].
  destruct (negb found || GetBoolArg _ _ _ _); cbn.
  - destruct (choose script (disk w)) as [acts [dataDir fs'| |]]; cbn;
      try discriminate.
    intros _. unfold settings_value. rewrite lookup_insert_eq.
    now apply SoftSetArg_sets_missing.
  - intros _. now apply SoftSetArg_sets_missing.
Qed.

Lemma pickDataDirectory_argument_agrees_with_settings_witness :
  let r := pickDataDirectory "/home/user/.num2" (fun _ => true)
             [accept "/nonexistent/newdir"; accept "/existing/data"]
             (scenario_world ∅) in
  mapArgs (world r) !! "-datadir" =
  Some (toStdString
          (settings_value (settings (world r)) "strDataDir"
             (getDefaultDataDirectory "/home/user/.num2"))).
Proof.
  apply (pickDataDirectory_argument_agrees_with_settings Disk posix_disk
           "/home/user/.num2" (fun _ => true)
           [accept "/nonexistent/newdir"; accept "/existing/data"]
           (scenario_world ∅)); reflexivity.
Defined.

(** X13. A [filesystem_error] leaves [pickDataDirectory] exactly when
    [-datadir] is empty or missing and the existence test of the resolved
    directory throws; a [create_directory] that throws never does. *)
Theorem pickDataDirectory_raises_only_from_exists :
  forall (FS : Type) (F : Filesystem FS) (GetDefaultDataDir : path)
         (boolValue : string -> bool) (script : list DialogRun) (w : World FS)
         (e : filesystem_error),
    ending (pickDataDirectory GetDefaultDataDir boolValue script w) = Raised e
    <->
    empty_string (GetArg (mapArgs w) "-datadir" "") = true
    /\ fs_exists (disk w)
         (toStdString (settings_value (settings w) "strDataDir"
                         (getDefaultDataDirectory GetDefaultDataDir)))
       = Throws e.
Proof.
  intros FS F GetDefaultDataDir boolValue script w e.
  unfold pickDataDirectory.
  destruct (empty_string (GetArg (mapArgs w) "-datadir" "")); cbn.
  - destruct (fs_exists _ _) as [found|e0]; cbn.
    + destruct (negb found || GetBoolArg _ _ _ _); cbn.
      * destruct (choose script (disk w)) as [acts [dataDir fs'| |]]; cbn;
          split; try discriminate; intros [_ Hc]; discriminate.
      * split; [discriminate|]. intros [_ Hc]. discriminate.
    + split; [intros [= ->]; auto|]. now intros [_ [= ->]].
  - split; [discriminate|]. intros [Hc _]. discriminate.
Qed.

(** ** The path widgets *)

Lemma setText_text (t : QString) (c : Chooser) :
  lineText (dataDirectory (form (fst (dataDirectory_setText t c)))) = t.
Proof.
  unfold dataDirectory_setText.
  destruct (String.eqb_spec t (lineText (dataDirectory (form c)))) as [->|_];
    [reflexivity|].
  destruct (on_dataDirectory_textChanged t (base c)). reflexivity.
Qed.

Lemma setText_enabled (t : QString) (c : Chooser) :
  lineEnabled (dataDirectory (form (fst (dataDirectory_setText t c))))
    = lineEnabled (dataDirectory (form c))
  /\ ellipsisButtonEnabled (form (fst (dataDirectory_setText t c)))
    = ellipsisButtonEnabled (form c).
Proof.
  unfold dataDirectory_setText.
  destruct (String.eqb t (lineText (dataDirectory (form c)))); [now split|].
  destruct (on_dataDirectory_textChanged t (base c)). now split.
Qed.

(** What a change of the text does to the slot and what it emits. *)
Lemma setText_base (t : QString) (c : Chooser) :
  (t = lineText (dataDirectory (form c)) ->
     dataDirectory_setText t c = (c, []))
  /\ (t <> lineText (dataDirectory (form c)) ->
        base (fst (dataDirectory_setText t c))
          = mkIntro (mkUi (errorMessage (ui (base c))) (freeSpace (ui (base c))) false)
                    t true
        /\ snd (dataDirectory_setText t c)
          = if signalled (base c) then [] else [requestCheck]).
Proof.
  unfold dataDirectory_setText.
  destruct (String.eqb_spec t (lineText (dataDirectory (form c)))) as [Heq|Hne].
  - split; [reflexivity|contradiction].
  - split; [contradiction|]. intros _.
    unfold on_dataDirectory_textChanged, checkPath. cbn.
    destruct (signalled (base c)); cbn; split; reflexivity.
Qed.

Lemma setDataDirectory_base (d : path) (dataDir : QString) (c : Chooser) :
  base (fst (setDataDirectory d dataDir c)) = base (fst (dataDirectory_setText dataDir c))
  /\ snd (setDataDirectory d dataDir c) = snd (dataDirectory_setText dataDir c).
Proof.
  unfold setDataDirectory.
  destruct (dataDirectory_setText dataDir c) as [c1 out].
  destruct (String.eqb dataDir (getDefaultDataDirectory d)); now split.
Qed.

(** [setDataDirectory] leaves its argument in the line edit and gives the
    browse button the state of the line edit. *)
Lemma setDataDirectory_form (d : path) (dataDir : QString) (c : Chooser) :
  lineText (dataDirectory (form (fst (setDataDirectory d dataDir c)))) = dataDir
  /\ ellipsisButtonEnabled (form (fst (setDataDirectory d dataDir c)))
     = lineEnabled (dataDirectory (form (fst (setDataDirectory d dataDir c)))).
Proof.
  pose proof (setText_text dataDir c) as Ht.
  unfold setDataDirectory.
  destruct (dataDirectory_setText dataDir c) as [c1 out]. cbn in Ht.
  destruct (String.eqb dataDir (getDefaultDataDirectory d)); cbn; auto.
Qed.

(** X14. After [setDataDirectory(dataDir)], [getDataDirectory()] returns
    [dataDir]; a second [setDataDirectory(dataDir)] changes nothing and emits
    nothing; and the path widgets it leaves (the text, the enabled states of
    the line edit and of the browse button, the option marked) are the same
    whatever the dialog showed before. *)
Theorem setDataDirectory_then_getDataDirectory :
  forall (GetDefaultDataDir : path) (dataDir : QString) (c other : Chooser),
    let c' := fst (setDataDirectory GetDefaultDataDir dataDir c) in
    getDataDirectory c' = dataDir
    /\ setDataDirectory GetDefaultDataDir dataDir c' = (c', [])
    /\ form (fst (setDataDirectory GetDefaultDataDir dataDir other)) = form c'.
Proof.
  intros d dataDir c other c'. subst c'.
  destruct (setDataDirectory_form d dataDir c) as [Ht _].
  split; [exact Ht|]. split.
  - destruct (setText_base dataDir (fst (setDataDirectory d dataDir c)))
      as [Hsame _].
    unfold setDataDirectory at 1. rewrite (Hsame (eq_sym Ht)).
    unfold setDataDirectory.
    destruct (dataDirectory_setText dataDir c) as [c1 out].
    destruct (String.eqb dataDir (getDefaultDataDirectory d)); reflexivity.
  - pose proof (setText_text dataDir c) as Hc.
    pose proof (setText_text dataDir other) as Ho.
    unfold setDataDirectory.
    destruct (dataDirectory_setText dataDir c) as [c1 out1].
    destruct (dataDirectory_setText dataDir other) as [c2 out2].
    cbn in Hc, Ho.
    destruct (String.eqb dataDir (getDefaultDataDirectory d)); cbn;
      now rewrite Hc, Ho.
Qed.

(** X15. [setDataDirectory] with a path other than the one shown puts that
    path in the slot, leaves a check signalled, disables the OK button, and
    emits [requestCheck] unless a check was signalled already; with the path
    already shown it leaves the slot and the OK button alone and emits
    nothing. *)
Theorem setDataDirectory_requests_check_on_change :
  forall (GetDefaultDataDir : path) (dataDir : QString) (c : Chooser),
    let c' := fst (setDataDirectory GetDefaultDataDir dataDir c) in
    let out := snd (setDataDirectory GetDefaultDataDir dataDir c) in
    (dataDir <> getDataDirectory c ->
       pathToCheck (base c') = dataDir
       /\ signalled (base c') = true
       /\ okButtonEnabled (ui (base c')) = false
       /\ out = (if signalled (base c) then [] else [requestCheck]))
    /\ (dataDir = getDataDirectory c -> base c' = base c /\ out = []).
Proof.
  intros d dataDir c c' out. subst c' out.
  destruct (setDataDirectory_base d dataDir c) as [-> ->].
  destruct (setText_base dataDir c) as [Hsame Hdiff].
  unfold getDataDirectory. split.
  - intros Hne. destruct (Hdiff Hne) as [-> ->]. cbn. auto.
  - intros Heq. rewrite (Hsame Heq). cbn. auto.
Qed.

Lemma setDataDirectory_requests_check_on_change_witness :
  let c := mkChooser (mkForm (mkLineEdit "" true) NoneSelected true)
             (Intro_new blank_ui) in
  let c' := fst (setDataDirectory "/home/user/.num2" "/home/user/.num2" c) in
  pathToCheck (base c') = "/home/user/.num2"
  /\ signalled (base c') = true
  /\ okButtonEnabled (ui (base c')) = false
  /\ snd (setDataDirectory "/home/user/.num2" "/home/user/.num2" c) = [requestCheck].
Proof.
  apply (setDataDirectory_requests_check_on_change "/home/user/.num2"
           "/home/user/.num2"
           (mkChooser (mkForm (mkLineEdit "" true) NoneSelected true)
              (Intro_new blank_ui))).
  discriminate.
Defined.

Lemma handle_keeps_invariants (d : path) (g : Gesture) (c : Chooser) :
  slot_shows_text c -> browse_follows_edit c ->
  slot_shows_text (fst (handle d g c)) /\ browse_follows_edit (fst (handle d g c)).
Proof.
  unfold slot_shows_text, browse_follows_edit. intros Hslot Hbrowse.
  assert (Hset : forall t,
    pathToCheck (base (fst (dataDirectory_setText t c)))
      = lineText (dataDirectory (form (fst (dataDirectory_setText t c))))).
  { intros t. rewrite setText_text.
    destruct (setText_base t c) as [Hsame Hdiff].
    destruct (String.eqb_spec t (lineText (dataDirectory (form c)))) as [Heq|Hne].
    - rewrite (Hsame Heq). cbn. now rewrite Hslot.
    - now destruct (Hdiff Hne) as [-> _]. }
  assert (Hdir : forall dataDir,
    pathToCheck (base (fst (setDataDirectory d dataDir c)))
      = lineText (dataDirectory (form (fst (setDataDirectory d dataDir c))))
    /\ ellipsisButtonEnabled (form (fst (setDataDirectory d dataDir c)))
      = lineEnabled (dataDirectory (form (fst (setDataDirectory d dataDir c))))).
  { intros dataDir.
    destruct (setDataDirectory_form d dataDir c) as [Hget ->].
    rewrite Hget.
    destruct (setDataDirectory_base d dataDir c) as [-> _].
    rewrite Hset, setText_text. auto. }
  destruct g as [t|dir| | |dataDir]; cbn.
  - split; [apply Hset|].
    destruct (setText_enabled t c) as [-> ->]. exact Hbrowse.
  - unfold on_ellipsisButton_clicked.
    destruct (negb (empty_string dir)); cbn; [|auto].
    split; [apply Hset|].
    destruct (setText_enabled dir c) as [-> ->]. exact Hbrowse.
  - apply Hdir.
  - auto.
  - apply Hdir.
Qed.

(** X16. Whatever is done to the path widgets (typing, picking a directory
    or cancelling the picker, clicking either option, [setDataDirectory]),
    the slot keeps holding the text that the line edit shows, and the browse
    button stays enabled exactly when the line edit is. *)
Theorem path_widgets_keep_slot_and_browse_button :
  forall (GetDefaultDataDir : path) (gs : list Gesture) (c : Chooser),
    slot_shows_text c -> browse_follows_edit c ->
    slot_shows_text (fst (handle_all GetDefaultDataDir gs c))
    /\ browse_follows_edit (fst (handle_all GetDefaultDataDir gs c)).
Proof.
  intros d gs. induction gs as [|g gs IH]; intros c Hslot Hbrowse; [now split|].
  cbn [handle_all].
  destruct (handle_keeps_invariants d g c Hslot Hbrowse) as [Hs1 Hb1].
  destruct (handle d g c) as [c1 out1]. cbn [fst] in Hs1, Hb1.
  specialize (IH c1 Hs1 Hb1).
  destruct (handle_all d gs c1) as [c2 out2]. exact IH.
Qed.

Lemma path_widgets_keep_slot_and_browse_button_witness :
  let c := mkChooser (mkForm (mkLineEdit "" true) NoneSelected true)
             (Intro_new blank_ui) in
  let c' := fst (handle_all "/home/user/.num2"
                   [SetsDirectory "/home/user/.num2"; ClicksCustom;
                    Types "/existing/d"; Picks ""; Picks "/existing/dir";
                    ClicksDefault] c) in
  slot_shows_text c' /\ browse_follows_edit c'.
Proof.
  apply (path_widgets_keep_slot_and_browse_button "/home/user/.num2"
           [SetsDirectory "/home/user/.num2"; ClicksCustom;
            Types "/existing/d"; Picks ""; Picks "/existing/dir"; ClicksDefault]
           (mkChooser (mkForm (mkLineEdit "" true) NoneSelected true)
              (Intro_new blank_ui))); reflexivity.
Defined.

(** A gesture either leaves the state of [Intro] alone and emits nothing, or
    leaves a check signalled, having emitted [requestCheck] if none was. *)
Lemma handle_flag (d : path) (g : Gesture) (c : Chooser) :
  (base (fst (handle d g c)) = base c /\ snd (handle d g c) = [])
  \/ (signalled (base (fst (handle d g c))) = true
      /\ snd (handle d g c) = if signalled (base c) then [] else [requestCheck]).
Proof.
  assert (Hset : forall t,
    (base (fst (dataDirectory_setText t c)) = base c
     /\ snd (dataDirectory_setText t c) = [])
    \/ (signalled (base (fst (dataDirectory_setText t c))) = true
        /\ snd (dataDirectory_setText t c)
           = if signalled (base c) then [] else [requestCheck])).
  { intros t. destruct (setText_base t c) as [Hsame Hdiff].
    destruct (String.eqb_spec t (lineText (dataDirectory (form c)))) as [Heq|Hne].
    - left. rewrite (Hsame Heq). now split.
    - right. destruct (Hdiff Hne) as [-> ->]. now split. }
  destruct g as [t|dir| | |dataDir]; cbn.
  - apply Hset.
  - unfold on_ellipsisButton_clicked.
    destruct (negb (empty_string dir)); [apply Hset|now left].
  - unfold on_dataDirDefault_clicked.
    destruct (setDataDirectory_base d (getDefaultDataDirectory d) c) as [-> ->].
    apply Hset.
  - now left.
  - destruct (setDataDirectory_base d dataDir c) as [-> ->]. apply Hset.
Qed.

(** X17. Whatever is done to the path widgets between two reads of the
    slot, [requestCheck] is emitted at most once, and not at all if a check
    was signalled before. *)
Theorem path_widgets_emit_at_most_one_request :
  forall (GetDefaultDataDir : path) (gs : list Gesture) (c : Chooser),
    (List.length (snd (handle_all GetDefaultDataDir gs c)) <= 1)%nat
    /\ (signalled (base c) = true ->
        snd (handle_all GetDefaultDataDir gs c) = []).
Proof.
  intros d gs. induction gs as [|g gs IH]; intros c; [cbn; split; [lia|reflexivity]|].
  cbn [handle_all].
  pose proof (handle_flag d g c) as Hflag.
  destruct (handle d g c) as [c1 out1]. cbn [fst snd] in Hflag.
  destruct (IH c1) as [Hlen Hnone].
  destruct (handle_all d gs c1) as [c2 out2]. cbn [snd] in *.
  destruct Hflag as [[Hbase ->]|[Hsig ->]].
  - rewrite Hbase in Hnone. cbn. split; [exact Hlen|exact Hnone].
  - rewrite (Hnone Hsig). rewrite app_nil_r.
    destruct (signalled (base c)); cbn; (split; [lia|]); intros Hc;
      reflexivity || discriminate.
Qed.

(** X12. [pickDataDirectory] opens its dialog on the resolved directory:
    [intro.setDataDirectory(dataDir)] leaves in the line edit the stored
    [strDataDir] if there is one, whatever the default is, and the default
    otherwise. If the user accepts the dialog as presented and
    [create_directory] accepts that directory, exactly that directory is
    created, written to [strDataDir] and soft-set as [-datadir]. *)
Theorem pickDataDirectory_presents_resolved_directory :
  forall (FS : Type) (F : Filesystem FS) (GetDefaultDataDir : path)
         (boolValue : string -> bool) (c0 : Chooser) (w : World FS),
    let dataDir :=
      settings_value (settings w) "strDataDir"
        (getDefaultDataDirectory GetDefaultDataDir) in
    let opened := fst (setDataDirectory GetDefaultDataDir dataDir c0) in
    (forall stored, settings w !! "strDataDir" = Some stored ->
       getDataDirectory opened = stored)
    /\ (settings w !! "strDataDir" = None ->
          getDataDirectory opened = getDefaultDataDirectory GetDefaultDataDir)
    /\ (forall (code : Z) (rest : list DialogVisit) (found created : bool) (fs' : FS),
          empty_string (GetArg (mapArgs w) "-datadir" "") = true ->
          fs_exists (disk w) (toStdString dataDir) = Done found ->
          negb found || GetBoolArg boolValue (mapArgs w) "-choosedatadir" false
            = true ->
          code <> 0%Z ->
          create_directory (disk w) (toStdString dataDir) = Done (created, fs') ->
          pickDataDirectory_visits GetDefaultDataDir boolValue c0
            (mkDialogVisit [] code :: rest) w
          = mkRun
              (mkWorld (snd (SoftSetArg (mapArgs w) "-datadir" (toStdString dataDir)))
                       (<["strDataDir" := dataDir]> (settings w)) fs')
              [ReadSetting "strDataDir"; ShowIntro;
               CreateDirectory (toStdString dataDir) created;
               WriteSetting "strDataDir" dataDir;
               SoftSet "-datadir" (toStdString dataDir)]
              Finished).
Proof.
  intros FS F d boolValue c0 w dataDir opened.
  assert (Hshown : getDataDirectory opened = dataDir)
    by (subst opened; apply setDataDirectory_form).
  split; [|split].
  - intros stored Hs. rewrite Hshown. subst dataDir.
    unfold settings_value. now rewrite Hs.
  - intros Hs. rewrite Hshown. subst dataDir.
    unfold settings_value. now rewrite Hs.
  - intros code rest found created fs' He Hfound Hshow Hcode Hcreate.
    unfold pickDataDirectory_visits. fold dataDir. fold opened.
    cbn [visits_script handle_all gestures visit_code fst].
    rewrite Hshown.
    unfold pickDataDirectory. rewrite He. cbn [negb].
    fold dataDir. rewrite Hfound, Hshow.
    cbn [choose exec_code dataDirectory_text].
    destruct (Z.eqb_spec code 0) as [Hz|_]; [contradiction|].
    rewrite Hcreate. reflexivity.
Qed.

Lemma pickDataDirectory_presents_resolved_directory_witness :
  pickDataDirectory_visits "/existing/num2" (fun _ => true) fresh_chooser
    [mkDialogVisit [] 1] (scenario_world ∅)
  = mkRun
      (mkWorld (snd (SoftSetArg ∅ "-datadir" "/existing/num2"))
               (<["strDataDir" := "/existing/num2"]> ∅)
               (mkDisk (("/existing/num2", directory_file) :: nodes scenario_disk)
                       (unreadable scenario_disk) (free_bytes scenario_disk)))
      [ReadSetting "strDataDir"; ShowIntro;
       CreateDirectory "/existing/num2" true;
       WriteSetting "strDataDir" "/existing/num2";
       SoftSet "-datadir" "/existing/num2"]
      Finished.
Proof.
  apply (proj2 (proj2
           (pickDataDirectory_presents_resolved_directory Disk posix_disk
              "/existing/num2" (fun _ => true) fresh_chooser (scenario_world ∅)))
           1%Z [] false true
           (mkDisk (("/existing/num2", directory_file) :: nodes scenario_disk)
                   (unreadable scenario_disk) (free_bytes scenario_disk))).
  - reflexivity.
  - reflexivity.
  - reflexivity.
  - discriminate.
  - reflexivity.
Defined.
